(** * Verification of the word-list updater (Scripts/update-word-lists.py)

    The script is a sequential batch job: HTTP fetches with retries, set
    operations on words, and reads and writes of a handful of text files.
    It is embedded here as a state-and-exception monad over an explicit
    world (file system, clock, request counter, console output).

    Text is modelled by [string] over ASCII code units, the alphabet the
    word lists are written in; file contents are the decoded text that
    [read_text] returns and [write_text] accepts. *)

From Stdlib Require Import Ascii.
From stdpp Require Import gmap strings list sorting.

Set Warnings "-clear-no-such-hyp".
Set Default Proof Using "Type".

(** ** Text operations: the [str] methods the script calls *)

Module Text.

Definition is_upper (c : ascii) : bool :=
  let n := N_of_ascii c in ((65 <=? n) && (n <=? 90))%N.

Definition is_lower (c : ascii) : bool :=
  let n := N_of_ascii c in ((97 <=? n) && (n <=? 122))%N.

Definition isalpha_char (c : ascii) : bool := is_upper c || is_lower c.

(** [str.isspace] on one ASCII character: TAB, LF, VT, FF, CR, the four
    separators FS GS RS US, and the space. *)
Definition isspace_char (c : ascii) : bool :=
  let n := N_of_ascii c in
  (((9 <=? n) && (n <=? 13)) || ((28 <=? n) && (n <=? 32)))%N.

Definition lower_char (c : ascii) : ascii :=
  if is_upper c then ascii_of_N (N_of_ascii c + 32) else c.

(** [s.lower()] *)
Fixpoint lower (s : string) : string :=
  match s with
  | EmptyString => EmptyString
  | String c s' => String (lower_char c) (lower s')
  end.

Fixpoint all_chars (p : ascii → bool) (s : string) : bool :=
  match s with
  | EmptyString => true
  | String c s' => p c && all_chars p s'
  end.

(** [s.isalpha()]: at least one character and all of them letters. *)
Definition isalpha (s : string) : bool :=
  match s with
  | EmptyString => false
  | _ => all_chars isalpha_char s
  end.

(** [len(s)] *)
Definition len (s : string) : nat := String.length s.

Fixpoint lstrip (s : string) : string :=
  match s with
  | EmptyString => EmptyString
  | String c s' => if isspace_char c then lstrip s' else s
  end.

Fixpoint rstrip (s : string) : string :=
  match s with
  | EmptyString => EmptyString
  | String c s' =>
      match rstrip s' with
      | EmptyString => if isspace_char c then EmptyString else String c EmptyString
      | r => String c r
      end
  end.

(** [s.strip()] *)
Definition strip (s : string) : string := rstrip (lstrip s).

(** [s.split(sep)] for a one-character separator: never the empty list,
    [''.split(sep) == ['']]. *)
Fixpoint split (sep : ascii) (s : string) : list string :=
  match s with
  | EmptyString => [EmptyString]
  | String c s' =>
      if Ascii.eqb c sep then EmptyString :: split sep s'
      else match split sep s' with
           | w :: ws => String c w :: ws
           | [] => [String c EmptyString]
           end
  end.

(** [sep.join(ws)] *)
Fixpoint join (sep : string) (ws : list string) : string :=
  match ws with
  | [] => EmptyString
  | [w] => w
  | w :: ws' => w +:+ sep +:+ join sep ws'
  end.

Definition NL : ascii := "010"%char.
Definition nl : string := String NL EmptyString.

(** [text.strip().split('\n')], the way every local file is read. *)
Definition lines (text : string) : list string := split NL (strip text).

(** [sorted(words)]: the elements in ascending code-point order. *)
Definition sorted (words : gset string) : list string :=
  merge_sort String.le (elements words).

End Text.

(** ** The world the script runs in *)

(** A [pathlib.Path] relative to the working directory, as its components. *)
Abbreviation path := (list string).

Inductive node :=
| File (text : string)
| Dir.

Global Instance node_eq_dec : EqDecision node.
Proof. solve_decision. Defined.

(** The exceptions the script can meet. All of them derive from
    [Exception]; the first two derive from [requests.RequestException]. *)
Inductive exn :=
| RequestException (detail : string)
| HTTPError (status : nat)
| JSONDecodeError
| TypeError
| AttributeError
| KeyError (key : string)
| FileNotFoundError (p : path)
| IsADirectoryError (p : path)
| NotADirectoryError (p : path)
| FileExistsError (p : path).

Definition is_RequestException (e : exn) : bool :=
  match e with
  | RequestException _ | HTTPError _ => true
  | _ => false
  end.

(** A parsed JSON document, as [response.json()] hands it over. An object
    keeps its items in order, with distinct keys. *)
#[warnings="-register-all"]
Inductive json :=
| JNull
| JBool (b : bool)
| JNum (n : Z)
| JStr (s : string)
| JArr (items : list json)
| JObj (items : list (string * json)).

Record response := {
  status_code : nat;
  text : string;
  (** [None] when the body is not JSON: [response.json()] raises. *)
  json_body : option json
}.

(** What the network does with one [requests.get]. *)
Inductive outcome :=
| Responds (r : response)
| Fails (detail : string).

Inductive level := INFO | DEBUG | WARNING | ERROR | SUCCESS.

Inductive arg :=
| ANat (n : nat)
| AStr (s : string)
| APath (p : path)
| AExn (e : exn).

(** Everything the script does to the outside, in order. A [Log] is one
    line of [log] (without its wall-clock prefix): the message template and
    the values formatted into it. *)
Inductive event :=
| Log (lvl : level) (msg : string) (args : list arg)
| Traceback (e : exn)
| Request (url : string)
| Sleep (secs : nat)
| WriteFile (p : path) (text : string)
| MakeDir (p : path).

Record state := {
  fs : gmap path node;
  clock : nat;
  requests_sent : nat;
  (** [self.changes_made] *)
  changes_made : bool;
  trace : list event
}.

Definition set_fs (f : gmap path node → gmap path node) (st : state) : state :=
  {| fs := f (fs st); clock := clock st; requests_sent := requests_sent st;
     changes_made := changes_made st; trace := trace st |}.
Definition set_clock (f : nat → nat) (st : state) : state :=
  {| fs := fs st; clock := f (clock st); requests_sent := requests_sent st;
     changes_made := changes_made st; trace := trace st |}.
Definition set_requests_sent (f : nat → nat) (st : state) : state :=
  {| fs := fs st; clock := clock st; requests_sent := f (requests_sent st);
     changes_made := changes_made st; trace := trace st |}.
Definition set_changes_made (b : bool) (st : state) : state :=
  {| fs := fs st; clock := clock st; requests_sent := requests_sent st;
     changes_made := b; trace := trace st |}.
Definition emit (e : event) (st : state) : state :=
  {| fs := fs st; clock := clock st; requests_sent := requests_sent st;
     changes_made := changes_made st; trace := trace st ++ [e] |}.

(** ** The monad: state that survives a raised exception *)

Inductive result (A : Type) :=
| Ok (a : A)
| Raise (e : exn).
Arguments Ok {A} a.
Arguments Raise {A} e.

Definition M (A : Type) : Type := state → result A * state.

Definition ret {A} (a : A) : M A := λ st, (Ok a, st).
Definition raise {A} (e : exn) : M A := λ st, (Raise e, st).
Definition bind {A B} (c : M A) (k : A → M B) : M B :=
  λ st, match c st with
        | (Ok a, st') => k a st'
        | (Raise e, st') => (Raise e, st')
        end.
Definition lift {A} (r : result A) : M A := λ st, (r, st).
Definition get {A} (f : state → A) : M A := λ st, (Ok (f st), st).
Definition modify (f : state → state) : M unit := λ st, (Ok tt, f st).

(** [try: c except <class> as e: h e], for the exceptions [catches] accepts. *)
Definition try_except {A} (c : M A) (catches : exn → bool) (h : exn → M A) : M A :=
  λ st, match c st with
        | (Ok a, st') => (Ok a, st')
        | (Raise e, st') => if catches e then h e st' else (Raise e, st')
        end.

Definition Exception : exn → bool := λ _, true.

Global Instance M_ret : MRet M := @ret.
Global Instance M_bind : MBind M := λ A B k c, bind c k.

(** [for x in xs: body x] *)
Fixpoint for_each {A} (xs : list A) (body : A → M unit) : M unit :=
  match xs with
  | [] => ret tt
  | x :: xs' => body x ;; for_each xs' body
  end.

(** ** The file system calls of [pathlib] *)

Module Fs.

(** The working directory itself is a directory. *)
Definition node_at (m : gmap path node) (p : path) : option node :=
  match p with
  | [] => Some Dir
  | _ => m !! p
  end.

Definition parent (p : path) : path := removelast p.

(** [p.exists()] *)
Definition exists_ (p : path) : M bool :=
  get (λ st, bool_decide (is_Some (node_at (fs st) p))).

(** [p.read_text(encoding='utf-8')] *)
Definition read_text (p : path) : M string :=
  n ← get (λ st, node_at (fs st) p);
  match n with
  | Some (File t) => ret t
  | Some Dir => raise (IsADirectoryError p)
  | None => raise (FileNotFoundError p)
  end.

(** [p.write_text(t, encoding='utf-8')]: creates or truncates the file;
    the directory that holds it must exist. *)
Definition write_text (p : path) (t : string) : M unit :=
  n ← get (λ st, node_at (fs st) p);
  d ← get (λ st, node_at (fs st) (parent p));
  match n, d with
  | Some Dir, _ => raise (IsADirectoryError p)
  | _, Some Dir =>
      modify (set_fs (insert p (File t)));;
      modify (emit (WriteFile p t))
  | _, Some (File _) => raise (NotADirectoryError p)
  | _, None => raise (FileNotFoundError p)
  end.

(** [p.mkdir(parents=True, exist_ok=True)], walking down from the working
    directory: an existing directory is kept, a missing one is made, a
    file in the way raises. *)
Fixpoint mkdir_from (above : path) (below : path) : M unit :=
  match below with
  | [] => ret tt
  | c :: below' =>
      let q := above ++ [c] in
      n ← get (λ st, node_at (fs st) q);
      match n with
      | Some Dir => mkdir_from q below'
      | Some (File _) =>
          raise (match below' with
                 | [] => FileExistsError q
                 | _ => NotADirectoryError q
                 end)
      | None =>
          modify (set_fs (insert q Dir));;
          modify (emit (MakeDir q));;
          mkdir_from q below'
      end
  end.

Definition mkdir (p : path) : M unit := mkdir_from [] p.

(** [Path(name).stem]: the name without its last suffix. *)
Fixpoint rfind_dot (s : string) : option nat :=
  match s with
  | EmptyString => None
  | String c s' =>
      match rfind_dot s' with
      | Some i => Some (S i)
      | None => if Ascii.eqb c "."%char then Some 0 else None
      end
  end.

Definition stem (name : string) : string :=
  match rfind_dot name with
  | Some i =>
      if (0 <? i) && (i <? String.length name - 1)
      then String.substring 0 i name else name
  | None => name
  end.

End Fs.

(** ** The values [response.json()] returns, with Python's dynamic checks *)

Module Json.

Definition has_key (key : string) (items : list (string * json)) : bool :=
  existsb (λ kv, String.eqb (fst kv) key) items.

Fixpoint lookup_key (key : string) (items : list (string * json)) : option json :=
  match items with
  | [] => None
  | (k, v) :: items' => if String.eqb k key then Some v else lookup_key key items'
  end.

Definition is_str (s : string) (j : json) : bool :=
  match j with
  | JStr s' => String.eqb s' s
  | _ => false
  end.

(** [key in data] *)
Definition contains (key : string) (data : json) : result bool :=
  match data with
  | JObj items => Ok (has_key key items)
  | JArr items => Ok (existsb (is_str key) items)
  | JStr s => Ok (bool_decide (is_Some (String.index 0 key s)))
  | _ => Raise TypeError
  end.

(** [data[key]] for a string [key] *)
Definition getitem (data : json) (key : string) : result json :=
  match data with
  | JObj items =>
      match lookup_key key items with
      | Some v => Ok v
      | None => Raise (KeyError key)
      end
  | _ => Raise TypeError
  end.

Fixpoint chars (s : string) : list json :=
  match s with
  | EmptyString => []
  | String c s' => JStr (String c EmptyString) :: chars s'
  end.

(** [iter(x)]: the items of a list, the keys of an object, the
    characters of a string. *)
Definition iter (x : json) : result (list json) :=
  match x with
  | JArr items => Ok items
  | JObj items => Ok (map (λ kv, JStr (fst kv)) items)
  | JStr s => Ok (chars s)
  | _ => Raise TypeError
  end.

(** [len(w)] *)
Definition len (w : json) : result nat :=
  match w with
  | JStr s => Ok (Text.len s)
  | JArr items => Ok (length items)
  | JObj items => Ok (length items)
  | _ => Raise TypeError
  end.

(** [w.lower()] *)
Definition lower (w : json) : result string :=
  match w with
  | JStr s => Ok (Text.lower s)
  | _ => Raise AttributeError
  end.

(** [past_answers.update(w.lower() for w in ws if len(w) == 5)]: the set
    grows word by word, and keeps what it has when an entry raises. *)
Fixpoint update_lowered (past_answers : gset string) (ws : list json)
  : gset string * option exn :=
  match ws with
  | [] => (past_answers, None)
  | w :: ws' =>
      match len w with
      | Raise e => (past_answers, Some e)
      | Ok n =>
          if n =? 5 then
            match lower w with
            | Raise e => (past_answers, Some e)
            | Ok s => update_lowered (past_answers ∪ {[s]}) ws'
            end
          else update_lowered past_answers ws'
      end
  end.

End Json.

(** ** Configuration *)

Definition DATA_DIR : path := ["Data"].
Definition WWWROOT_DATA_DIR : path := ["wwwroot"; "data"].
Definition BACKUP_DIR : path := ["Data"; "backups"].

Definition WORDLE_ANSWERS_URL : string :=
  "https://www.nytimes.com/games-assets/v2/wordle.json".
Definition FALLBACK_SCRABBLE_URL : string :=
  "https://raw.githubusercontent.com/dwyl/english-words/master/words_alpha.txt".

(** [directory / name] *)
Definition joinpath (directory : path) (name : string) : path := directory ++ [name].
Infix "</>" := joinpath (at level 40, left associativity).

Definition DATA_FILES : list string := ["words.txt"; "common-words.txt"; "past-answers.txt"].

(** The fields of the updater object that never change after [__init__];
    [changes_made] lives in the [state]. *)
Record WordListUpdater := {
  verbose : bool;
  dry_run : bool
}.

(** ** The updater *)

Section Updater.

(** The answer of the network to the [n]-th request of the process. *)
Variable net : nat → string → outcome.
(** [datetime.strftime("%Y%m%d_%H%M%S")] of a clock reading. *)
Variable strftime : nat → string.
Variable self : WordListUpdater.

Definition log (message : string) (args : list arg) (lvl : level) : M unit :=
  modify (emit (Log lvl message args)).

Definition verbose_log (message : string) (args : list arg) : M unit :=
  if verbose self then log message args DEBUG else ret tt.

Definition requests_get (url : string) : M response :=
  n ← get requests_sent;
  modify (set_requests_sent S);;
  modify (emit (Request url));;
  match net n url with
  | Responds r => ret r
  | Fails detail => raise (RequestException detail)
  end.

Definition raise_for_status (r : response) : M unit :=
  if (400 <=? status_code r) && (status_code r <? 600)
  then raise (HTTPError (status_code r)) else ret tt.

Definition sleep (secs : nat) : M unit :=
  modify (set_clock (λ t, t + secs));;
  modify (emit (Sleep secs)).

(** The [for attempt in ...] loop of [fetch_url]; falling off its end
    would return [None]. *)
Fixpoint fetch_url_loop (url : string) (attempts : list nat) : M (option response) :=
  match attempts with
  | [] => ret None
  | attempt :: attempts' =>
      try_except
        (verbose_log "Fetching {} (attempt {})" [AStr url; ANat (attempt + 1)];;
         response ← requests_get url;
         raise_for_status response;;
         ret (Some response))
        is_RequestException
        (λ e,
           log "Attempt {} failed: {}" [ANat (attempt + 1); AExn e] WARNING;;
           if attempt <? 2
           then sleep (2 ^ attempt);; fetch_url_loop url attempts'
           else raise e)
  end.

Definition fetch_url (url : string) : M (option response) :=
  fetch_url_loop url (seq 0 3).

(** [response.json()] and [response.text] on what [fetch_url] returned. *)
Definition response_json (r : option response) : M json :=
  match r with
  | None => raise AttributeError
  | Some r =>
      match json_body r with
      | Some data => ret data
      | None => raise JSONDecodeError
      end
  end.

Definition response_text (r : option response) : M string :=
  match r with
  | None => raise AttributeError
  | Some r => ret (text r)
  end.

(** Method 1 of [fetch_past_wordle_answers]: the [try] block around the
    JSON endpoint. It yields [past_answers] as the block leaves it, also
    when the block is left by an exception. *)
Definition answers_from_json : M (gset string) :=
  try_except
    (response ← fetch_url WORDLE_ANSWERS_URL;
     data ← response_json response;
     has ← lift (Json.contains "solutions" data);
     if has : bool then
       solutions ← lift (Json.getitem data "solutions");
       ws ← lift (Json.iter solutions);
       match Json.update_lowered ∅ ws with
       | (past_answers, None) =>
           log "Found {} answers from JSON endpoint" [ANat (size past_answers)] INFO;;
           ret past_answers
       | (past_answers, Some e) =>
           log "Could not fetch from JSON endpoint: {}" [AExn e] WARNING;;
           ret past_answers
       end
     else ret ∅)
    Exception
    (λ e,
       log "Could not fetch from JSON endpoint: {}" [AExn e] WARNING;;
       ret ∅).

(** Known recent answers to add by hand: none are listed. *)
Definition known_recent : gset string := ∅.

Definition fetch_past_wordle_answers : M (gset string) :=
  log "Fetching past Wordle answers from NYTimes..." [] INFO;;
  past_answers ← answers_from_json;
  (if bool_decide (past_answers = ∅)
   then log "Attempting to extract from Wordle JS bundle..." [] INFO
   else ret tt);;
  if bool_decide (past_answers = ∅) then
    log "Using existing past-answers.txt as base" [] WARNING;;
    let existing_file := DATA_DIR </> "past-answers.txt" in
    there ← Fs.exists_ existing_file;
    if there : bool then
      content ← Fs.read_text existing_file;
      let past_answers : gset string := list_to_set (Text.lines content) in
      log "Loaded {} existing answers" [ANat (size past_answers)] INFO;;
      ret (past_answers ∪ known_recent)
    else ret past_answers
  else ret past_answers.

Definition fetch_comprehensive_wordlist : M (gset string) :=
  log "Fetching comprehensive word list..." [] INFO;;
  let existing_file := DATA_DIR </> "words.txt" in
  there ← Fs.exists_ existing_file;
  all_words ←
    (if there : bool then
       content ← Fs.read_text existing_file;
       let all_words : gset string := list_to_set (Text.lines content) in
       log "Loaded {} existing words" [ANat (size all_words)] INFO;;
       ret all_words
     else ret ∅);
  try_except
    (response ← fetch_url FALLBACK_SCRABBLE_URL;
     body ← response_text response;
     let scrabble_words : gset string :=
       list_to_set
         (map Text.lower
            (filter (λ word, Text.len word = 5 ∧ Text.isalpha word)
               (Text.split Text.NL body))) in
     let original_count := size all_words in
     let all_words := all_words ∪ scrabble_words in
     let new_count := size all_words in
     (if original_count <? new_count
      then log "Added {} new words from Scrabble dictionary"
             [ANat (new_count - original_count)] INFO
      else ret tt);;
     ret all_words)
    Exception
    (λ e,
       log "Could not fetch Scrabble dictionary: {}" [AExn e] WARNING;;
       ret all_words).

Definition determine_common_words (all_words past_answers : gset string)
  : M (gset string) :=
  log "Determining common words..." [] INFO;;
  let common : gset string := ∅ ∪ past_answers in
  let existing_file := DATA_DIR </> "common-words.txt" in
  there ← Fs.exists_ existing_file;
  common ←
    (if there : bool then
       content ← Fs.read_text existing_file;
       let existing_common : gset string := list_to_set (Text.lines content) in
       ret (common ∪ existing_common)
     else ret common);
  let common := common ∩ all_words in
  log "Determined {} common words" [ANat (size common)] INFO;;
  ret common.

Definition backup_files : M unit :=
  if dry_run self then log "DRY RUN: Would create backups" [] INFO
  else
    Fs.mkdir BACKUP_DIR;;
    timestamp ← get (λ st, strftime (clock st));
    for_each DATA_FILES (λ filename,
      let source := DATA_DIR </> filename in
      there ← Fs.exists_ source;
      if there : bool then
        let backup := BACKUP_DIR </> (Fs.stem filename +:+ "_" +:+ timestamp +:+ ".txt") in
        content ← Fs.read_text source;
        Fs.write_text backup content;;
        verbose_log "Backed up {} to {}" [AStr filename; APath backup]
      else ret tt).

(** [content.split()]: the maximal runs of non-blank characters. *)
Fixpoint split_blank (s : string) : list string :=
  match s with
  | EmptyString => []
  | String c s' =>
      if Text.isspace_char c then split_blank s'
      else match s' with
           | EmptyString => [String c EmptyString]
           | String c' _ =>
               if Text.isspace_char c' then String c EmptyString :: split_blank s'
               else match split_blank s' with
                    | w :: ws => String c w :: ws
                    | [] => [String c EmptyString]
                    end
           end
  end.

(** The text [write_word_file] computes for a word set. *)
Definition file_content (words : gset string) : string :=
  Text.join Text.nl (Text.sorted words).

Definition write_word_file (filepath : path) (words : gset string)
    (description : string) : M unit :=
  let sorted_words := Text.sorted words in
  let content := Text.join Text.nl sorted_words in
  there ← Fs.exists_ filepath;
  existing_content ← (if there : bool then Fs.read_text filepath else ret "");
  if bool_decide (content ≠ Text.strip existing_content) then
    modify (set_changes_made true);;
    if dry_run self then
      log "DRY RUN: Would update {} ({} words)"
        [APath filepath; ANat (length sorted_words)] INFO;;
      log "  Current: {} words" [ANat (length (split_blank existing_content))] INFO;;
      log "  New: {} words" [ANat (length sorted_words)] INFO
    else
      Fs.write_text filepath content;;
      log "✓ Updated {}: {} {}"
        [AStr (default "" (last filepath)); ANat (length sorted_words);
         AStr description] INFO
  else
    log "✓ No changes for {}" [AStr (default "" (last filepath))] INFO.

Definition sync_to_wwwroot : M unit :=
  if dry_run self then log "DRY RUN: Would sync to wwwroot/data/" [] INFO
  else
    Fs.mkdir WWWROOT_DATA_DIR;;
    for_each DATA_FILES (λ filename,
      let source := DATA_DIR </> filename in
      let dest := WWWROOT_DATA_DIR </> filename in
      there ← Fs.exists_ source;
      if there : bool then
        content ← Fs.read_text source;
        Fs.write_text dest content;;
        verbose_log "Synced {} to wwwroot/data/" [AStr filename]
      else ret tt).

(** The three word sets of a run: past answers, all words, common words. *)
Definition fetch_data : M (gset string * gset string * gset string) :=
  past_answers ← fetch_past_wordle_answers;
  all_words ← fetch_comprehensive_wordlist;
  common_words ← determine_common_words all_words past_answers;
  ret (past_answers, all_words, common_words).

Definition write_updated_files
    (sets : gset string * gset string * gset string) : M unit :=
  let '(past_answers, all_words, common_words) := sets in
  write_word_file (DATA_DIR </> "past-answers.txt") past_answers "past Wordle answers";;
  write_word_file (DATA_DIR </> "common-words.txt") common_words "common words";;
  write_word_file (DATA_DIR </> "words.txt") all_words "total words".

(** The body of the [try] in [run]. *)
Definition run_body (start_time : nat) : M Z :=
  backup_files;;
  sets ← fetch_data;
  Fs.mkdir DATA_DIR;;
  write_updated_files sets;;
  sync_to_wwwroot;;
  now ← get clock;
  log "=== Update Complete ({}s) ===" [ANat (now - start_time)] INFO;;
  changed ← get changes_made;
  if changed : bool then
    log "✓ Changes detected and files updated" [] SUCCESS;;
    ret 0%Z
  else
    log "ℹ No changes needed - files are up to date" [] INFO;;
    ret 0%Z.

Definition run : M Z :=
  log "=== Starting Word List Update ===" [] INFO;;
  start_time ← get clock;
  try_except (run_body start_time) Exception
    (λ e,
       log "Error during update: {}" [AExn e] ERROR;;
       modify (emit (Traceback e));;
       ret 1%Z).

End Updater.

(** How the process ends. *)
Inductive termination :=
| Exit (status : Z)
| Uncaught (e : exn).

(** [main]: build the updater from the parsed flags, [sys.exit(updater.run())].
    A fresh updater starts with [changes_made = False]. *)
Definition main (net : nat → string → outcome) (strftime : nat → string)
    (verbose_flag dry_run_flag : bool) (st : state) : termination * state :=
  let updater := {| verbose := verbose_flag; dry_run := dry_run_flag |} in
  match run net strftime updater (set_changes_made false st) with
  | (Ok status, st') => (Exit status, st')
  | (Raise e, st') => (Uncaught e, st')
  end.

(** ** Notions the statements below are written in *)

Section Notions.

Variable net : nat → string → outcome.
Variable self : WordListUpdater.

(** What a computation added to the trace. *)
Definition since (st st' : state) : list event :=
  drop (length (trace st)) (trace st').

Definition is_net_event (e : event) : bool :=
  match e with
  | Request _ | Sleep _ => true
  | _ => false
  end.

(** The requests and sleeps among some events, in order. *)
Definition net_events (evs : list event) : list event :=
  List.filter is_net_event evs.

(** One attempt as [fetch_url] sees it: [requests.get] followed by
    [raise_for_status]. *)
Definition attempt_result (o : outcome) : result response :=
  match o with
  | Responds r =>
      if (400 <=? status_code r) && (status_code r <? 600)
      then Raise (HTTPError (status_code r)) else Ok r
  | Fails detail => Raise (RequestException detail)
  end.

(** The state once attempt number [attempt] has been sent. *)
Definition seen_attempt (url : string) (attempt : nat) (st : state) : state :=
  emit (Request url) (set_requests_sent S
    (if verbose self
     then emit (Log DEBUG "Fetching {} (attempt {})" [AStr url; ANat (attempt + 1)]) st
     else st)).

Definition warned (attempt : nat) (e : exn) (st : state) : state :=
  emit (Log WARNING "Attempt {} failed: {}" [ANat (attempt + 1); AExn e]) st.

Definition slept (attempt : nat) (st : state) : state :=
  emit (Sleep (2 ^ attempt)) (set_clock (λ t, t + 2 ^ attempt) st).

(** What three attempts starting with request number [n] come to: the
    first success, or the failure of the third. *)
Definition fetch_result (n : nat) (url : string) : result response :=
  match attempt_result (net n url) with
  | Ok r => Ok r
  | Raise _ =>
      match attempt_result (net (S n) url) with
      | Ok r => Ok r
      | Raise _ => attempt_result (net (S (S n)) url)
      end
  end.

Definition some_response (r : result response) : result (option response) :=
  match r with
  | Ok r => Ok (Some r)
  | Raise e => Raise e
  end.

(** The words the script reads from a local file: [None] when the path
    does not exist. Reading a directory raises. *)
Definition local_words (n : option node) (p : path) : result (option (gset string)) :=
  match n with
  | Some (File content) => Ok (Some (list_to_set (Text.lines content)))
  | Some Dir => Raise (IsADirectoryError p)
  | None => Ok None
  end.

(** The computation leaves the files and [changes_made] alone. *)
Definition same_files (st st' : state) : Prop :=
  fs st' = fs st ∧ changes_made st' = changes_made st ∧
  requests_sent st ≤ requests_sent st'.

(** The words of the JSON document the answers endpoint returned. *)
Definition solutions_of (data : json) : gset string :=
  match Json.contains "solutions" data with
  | Ok true =>
      match Json.getitem data "solutions" with
      | Ok solutions =>
          match Json.iter solutions with
          | Ok ws => (Json.update_lowered ∅ ws).1
          | Raise _ => ∅
          end
      | Raise _ => ∅
      end
  | _ => ∅
  end.

(** What Method 1 yields when its first request is request number [n]. *)
Definition remote_answers (n : nat) : gset string :=
  match fetch_result n WORDLE_ANSWERS_URL with
  | Ok r =>
      match json_body r with
      | Some data => solutions_of data
      | None => ∅
      end
  | Raise _ => ∅
  end.

(** [fetch_past_wordle_answers] as a function of the remote words and of
    the node at [Data/past-answers.txt]. *)
Definition past_answers_of (remote : gset string) (n : option node)
  : result (gset string) :=
  if bool_decide (remote = ∅) then
    match local_words n (DATA_DIR </> "past-answers.txt") with
    | Ok (Some ws) => Ok (ws ∪ known_recent)
    | Ok None => Ok remote
    | Raise e => Raise e
    end
  else Ok remote.

(** The words [fetch_comprehensive_wordlist] adds from the dictionary
    response: none when the fetch failed. *)
Definition scrabble_words_of (r : result response) : gset string :=
  match r with
  | Ok r =>
      list_to_set
        (map Text.lower
           (filter (λ word, Text.len word = 5 ∧ Text.isalpha word)
              (Text.split Text.NL (text r))))
  | Raise _ => ∅
  end.

Definition scrabble_words (n : nat) : gset string :=
  scrabble_words_of (fetch_result n FALLBACK_SCRABBLE_URL).

Definition all_words_of (scrabble : gset string) (n : option node)
  : result (gset string) :=
  match local_words n (DATA_DIR </> "words.txt") with
  | Ok seed => Ok (default ∅ seed ∪ scrabble)
  | Raise e => Raise e
  end.

Definition common_words_of (all_words past_answers : gset string) (n : option node)
  : result (gset string) :=
  match local_words n (DATA_DIR </> "common-words.txt") with
  | Ok existing_common => Ok ((past_answers ∪ default ∅ existing_common) ∩ all_words)
  | Raise e => Raise e
  end.

End Notions.

(** The words of the local data file [name], as the script reads them;
    none when there is no such file. *)
Definition existing_words (m : gmap path node) (name : string) : gset string :=
  match m !! (DATA_DIR </> name) with
  | Some (File content) => list_to_set (Text.lines content)
  | _ => ∅
  end.

(** The three requests numbered from [n] all fail: the retries of one
    [fetch_url] call are exhausted. *)
Definition attempts_fail (net : nat → string → outcome) (n : nat) (url : string) : Prop :=
  ∀ k, k < 3 → ∃ e, attempt_result (net (n + k) url) = Raise e.

(** ** Concrete worlds *)

Definition no_network : nat → string → outcome := λ _ _, Fails "connection refused".

Definition stamp : nat → string := λ _, "20240101_120000".

(** A process that starts on the given files. *)
Definition fresh (files : gmap path node) : state :=
  {| fs := files; clock := 0; requests_sent := 0; changes_made := false; trace := [] |}.

Definition quiet : WordListUpdater := {| verbose := false; dry_run := false |}.

Definition answers_document : json :=
  JObj [("solutions", JArr [JStr "Apple"; JStr "toolong"; JStr "beach"])].

(** Both endpoints answer: three solutions, and a five-line dictionary. *)
Definition online : nat → string → outcome := λ _ url,
  if String.eqb url WORDLE_ANSWERS_URL
  then Responds {| status_code := 200; text := ""; json_body := Some answers_document |}
  else Responds {| status_code := 200;
                   text := "zebra" +:+ Text.nl +:+ "QUILT" +:+ Text.nl +:+ "ab" +:+ Text.nl
                           +:+ "it's5" +:+ Text.nl;
                   json_body := None |}.

(** A data directory whose past answers are [apple] and [beach]. *)
Definition apple_beach : gmap path node :=
  <[DATA_DIR </> "past-answers.txt" := File ("apple" +:+ Text.nl +:+ "beach" +:+ Text.nl)]>
    (<[DATA_DIR := Dir]> ∅).

(** ** Notions about the data files *)

(** The paths of the three data files. *)
Definition data_paths : list path := map (joinpath DATA_DIR) DATA_FILES.

Definition is_data_path (q : path) : Prop := q ∈ data_paths.

(** The text [write_word_file] compares against: the file's, or the empty
    text when there is no file. *)
Definition existing_text (n : option node) : string :=
  match n with
  | Some (File content) => content
  | _ => ""
  end.

(** The node at a data file's path once [write_word_file] has returned
    for [words], outside dry-run mode. *)
Definition after_write (n : option node) (words : gset string) : option node :=
  if bool_decide (file_content words = Text.strip (existing_text n))
  then n else Some (File (file_content words)).

(** The three sets of a run, from the remote words and the nodes at the
    three data files. *)
Definition data_of (remote scrabble : gset string) (past words common : option node)
  : result (gset string * gset string * gset string) :=
  match past_answers_of remote past with
  | Raise e => Raise e
  | Ok past_answers =>
      match all_words_of scrabble words with
      | Raise e => Raise e
      | Ok all_words =>
          match common_words_of all_words past_answers common with
          | Raise e => Raise e
          | Ok common_words => Ok (past_answers, all_words, common_words)
          end
      end
  end.

(** The directories [mkdir_from above below] may make. *)
Fixpoint made (above below : path) : list path :=
  match below with
  | [] => []
  | c :: below' => (above ++ [c]) :: made (above ++ [c]) below'
  end.

(** A computation under which the nodes at the paths in [K] stay as they
    are, and so does [changes_made]. *)
Definition preserves {A} (K : path → Prop) (c : M A) : Prop :=
  ∀ st, (∀ q, K q → fs (c st).2 !! q = fs st !! q) ∧
        changes_made (c st).2 = changes_made st.

(** ** Notions about text *)

(** All characters of [s] are blank. *)
Definition blank (s : string) : Prop := Text.all_chars Text.isspace_char s = true.

(** A line that is a word: not empty, no blank character in it. *)
Definition clean (w : string) : bool :=
  match w with
  | EmptyString => false
  | _ => Text.all_chars (λ c, negb (Text.isspace_char c)) w
  end.

Definition clean_set (ws : gset string) : Prop := ∀ w, w ∈ ws → clean w = true.

(** Every line of the file at this node, if it is a file, is a word. *)
Definition clean_node (n : option node) : Prop :=
  match n with
  | Some (File content) => Forall (λ w, clean w = true) (Text.lines content)
  | _ => True
  end.


(** The network answers every request for a URL the same way. *)
Definition stationary (net : nat → string → outcome) : Prop :=
  ∀ n url, net n url = net 0 url.

Definition is_fs_event (e : event) : bool :=
  match e with
  | WriteFile _ _ | MakeDir _ => true
  | _ => false
  end.

(** The writes and directory creations among some events, in order. *)
Definition fs_events (evs : list event) : list event :=
  List.filter is_fs_event evs.

(** A data directory that is in the way: [Data] is a file. *)
Definition data_is_a_file : gmap path node := <[DATA_DIR := File "not a directory"]> ∅.

(** The same two answers, out of order. *)
Definition beach_apple : gmap path node :=
  <[DATA_DIR </> "past-answers.txt" := File ("beach" +:+ Text.nl +:+ "apple" +:+ Text.nl)]>
    (<[DATA_DIR := Dir]> ∅).


(** A past-answers file that holds one newline and nothing else. *)
Definition blank_past : gmap path node :=
  <[DATA_DIR </> "past-answers.txt" := File Text.nl]> (<[DATA_DIR := Dir]> ∅).

(** A word list with an empty first line, and a newline at its end. *)
Definition blank_line_words : gmap path node :=
  <[DATA_DIR </> "words.txt" := File (Text.nl +:+ "apple" +:+ Text.nl)]>
    (<[DATA_DIR := Dir]> ∅).

(** ** Notions for whole-run invariants *)

(** Every state a computation ends in is related to the state it started
    from. *)
Definition respects {A} (R : relation state) (c : M A) : Prop :=
  ∀ st, R st (c st).2.

(** Nothing is deleted and nothing changes its kind: a directory stays a
    directory, a file stays a file (its text may change). *)
Definition keeps_kinds (st st' : state) : Prop :=
  ∀ p, (fs st !! p = Some Dir → fs st' !! p = Some Dir) ∧
       (∀ content, fs st !! p = Some (File content) →
                   ∃ content', fs st' !! p = Some (File content')).

(** The files are as before, except that the directory [Data] may have
    been made. *)
Definition at_most_data_dir (st st' : state) : Prop :=
  fs st' = fs st ∨
  (fs st !! DATA_DIR = None ∧ fs st' = <[DATA_DIR := Dir]> (fs st)).

(** The name of the backup of a data file. *)
Definition backup_name (filename timestamp : string) : string :=
  Fs.stem filename +:+ "_" +:+ timestamp +:+ ".txt".

(** One turn of the loop in [backup_files] and [sync_to_wwwroot]: the data
    file [filename], when it exists, is copied to [dest_of filename], and
    [note] logs it. *)
Definition copy_one (dest_of : string → path) (note : string → M unit)
    (filename : string) : M unit :=
  there ← Fs.exists_ (DATA_DIR </> filename);
  if there : bool then
    content ← Fs.read_text (DATA_DIR </> filename);
    Fs.write_text (dest_of filename) content;;
    note filename
  else mret tt.

(** The requests sent and the seconds slept are as before. *)
Definition same_budget (st st' : state) : Prop :=
  requests_sent st' = requests_sent st ∧ clock st' = clock st.


(** The lines that only [--verbose] prints. *)
Definition is_debug (e : event) : bool :=
  match e with
  | Log DEBUG _ _ => true
  | _ => false
  end.

Definition debug_free (evs : list event) : list event :=
  List.filter (λ e, negb (is_debug e)) evs.

(** Two states that are the same up to the debug lines the first has
    printed since the trace was [base]. *)
Definition louder (base : list event) (st1 st2 : state) : Prop :=
  fs st1 = fs st2 ∧ clock st1 = clock st2 ∧
  requests_sent st1 = requests_sent st2 ∧ changes_made st1 = changes_made st2 ∧
  ∃ evs, trace st1 = base ++ evs ∧ trace st2 = base ++ debug_free evs.

(** Two computations that, started in such states, end alike in such
    states. *)
Definition louder_runs {A} (base : list event) (c1 c2 : M A) : Prop :=
  ∀ st1 st2, louder base st1 st2 →
    (c1 st1).1 = (c2 st2).1 ∧ louder base (c1 st1).2 (c2 st2).2.

(** One local past answer that the endpoint does not list. *)
Definition crane_only : gmap path node :=
  <[DATA_DIR </> "past-answers.txt" := File ("crane" +:+ Text.nl)]>
    (<[DATA_DIR := Dir]> ∅).

(** A word list of one word that the dictionary does not list. *)
Definition crane_words : gmap path node :=
  <[DATA_DIR </> "words.txt" := File ("crane" +:+ Text.nl)]> (<[DATA_DIR := Dir]> ∅).

(** * Properties *)

Example strip_ex : Text.strip (" apple" +:+ Text.nl +:+ "beach" +:+ Text.nl) = "apple" +:+ Text.nl +:+ "beach".
Proof. reflexivity. Qed.
Example split_ex : Text.split Text.NL ("apple" +:+ Text.nl +:+ "beach") = ["apple"; "beach"].
Proof. reflexivity. Qed.
Example sorted_ex : Text.sorted {["beach"; "apple"]} = ["apple"; "beach"].
Proof. vm_compute. reflexivity. Qed.
Example lower_ex : Text.lower "ApPlE" = "apple".
Proof. reflexivity. Qed.

Example stem_ex : Fs.stem "past-answers.txt" = "past-answers".
Proof. reflexivity. Qed.


(** * Properties *)

(** ** Running the monad *)

Ltac run_monad :=
  unfold mbind, M_bind, bind, mret, M_ret, ret, raise, get, modify, lift, try_except.

Lemma bind_unfold {A B} (c : M A) (k : A → M B) st :
  (c ≫= k) st = match c st with
                | (Ok a, st') => k a st'
                | (Raise e, st') => (Raise e, st')
                end.
Proof. reflexivity. Qed.

Lemma since_app st st' evs : trace st' = trace st ++ evs → since st st' = evs.
Proof. unfold since. intros ->. by rewrite drop_app_length. Qed.

(** ** The retry loop of [fetch_url] *)

Section Fetch.

Variable net : nat → string → outcome.
Variable self : WordListUpdater.

Lemma attempt_result_caught o e :
  attempt_result o = Raise e → is_RequestException e = true.
Proof.
  destruct o as [r|d]; simpl; [|by intros [= <-]].
  by destruct (_ && _); intros [= <-].
Qed.

Lemma fetch_url_loop_step url attempt attempts st :
  fetch_url_loop net self url (attempt :: attempts) st =
  let st1 := seen_attempt self url attempt st in
  match attempt_result (net (requests_sent st) url) with
  | Ok r => (Ok (Some r), st1)
  | Raise e =>
      if attempt <? 2
      then fetch_url_loop net self url attempts (slept attempt (warned attempt e st1))
      else (Raise e, warned attempt e st1)
  end.
Proof.
  cbn [fetch_url_loop]. unfold seen_attempt, slept, warned, attempt_result.
  unfold verbose_log, log, requests_get, raise_for_status, sleep. run_monad.
  destruct (verbose self); cbn [requests_sent emit set_requests_sent];
    (destruct (net (requests_sent st) url) as [r|d]; [destruct (_ && _)|]);
    cbn [is_RequestException]; destruct (attempt <? 2); reflexivity.
Qed.

Lemma requests_sent_seen url attempt st :
  requests_sent (seen_attempt self url attempt st) = S (requests_sent st).
Proof. unfold seen_attempt. by destruct (verbose self). Qed.

Lemma requests_sent_slept attempt e st :
  requests_sent (slept attempt (warned attempt e st)) = requests_sent st.
Proof. reflexivity. Qed.

Ltac trace_since :=
  unfold seen_attempt, slept, warned, since; destruct (verbose self); simpl;
  rewrite <- ?app_assoc, drop_app_length; reflexivity.

(** C3: [fetch_url] sends at most three requests. After a first failure
    it sleeps 1 and retries, after a second it sleeps 2 and retries, a
    third failure is re-raised; the first success is returned at once. *)
Theorem fetch_url_retries (url : string) (st : state) :
  let a k := attempt_result (net (requests_sent st + k) url) in
  let '(r, st') := fetch_url net self url st in
  let io := net_events (since st st') in
  match a 0, a 1, a 2 with
  | Ok r0, _, _ =>
      r = Ok (Some r0) ∧ io = [Request url]
  | Raise _, Ok r1, _ =>
      r = Ok (Some r1) ∧ io = [Request url; Sleep 1; Request url]
  | Raise _, Raise _, Ok r2 =>
      r = Ok (Some r2) ∧
      io = [Request url; Sleep 1; Request url; Sleep 2; Request url]
  | Raise _, Raise _, Raise e =>
      r = Raise e ∧
      io = [Request url; Sleep 1; Request url; Sleep 2; Request url]
  end.
Proof.
  cbv zeta. unfold fetch_url. cbn [seq].
  replace (requests_sent st + 0) with (requests_sent st) by lia.
  replace (requests_sent st + 1) with (S (requests_sent st)) by lia.
  replace (requests_sent st + 2) with (S (S (requests_sent st))) by lia.
  rewrite fetch_url_loop_step. cbv zeta.
  destruct (attempt_result (net (requests_sent st) url)) as [r0|e0].
  { split; [done|]. trace_since. }
  cbn [Nat.ltb Nat.leb]. rewrite fetch_url_loop_step. cbv zeta.
  repeat (rewrite requests_sent_slept || rewrite requests_sent_seen).
  destruct (attempt_result (net (S (requests_sent st)) url)) as [r1|e1].
  { split; [done|]. trace_since. }
  cbn [Nat.ltb Nat.leb]. rewrite fetch_url_loop_step. cbv zeta.
  repeat (rewrite requests_sent_slept || rewrite requests_sent_seen).
  destruct (attempt_result (net (S (S (requests_sent st))) url)) as [r2|e2].
  { split; [done|]. trace_since. }
  cbn [Nat.ltb Nat.leb]. split; [done|]. trace_since.
Qed.

(** The same, as a function of the three outcomes, with what the call
    leaves untouched. *)
Lemma fetch_url_run (url : string) (st : state) :
  ∃ st', fetch_url net self url st =
           (some_response (fetch_result net (requests_sent st) url), st') ∧
         fs st' = fs st ∧ changes_made st' = changes_made st ∧
         requests_sent st ≤ requests_sent st'.
Proof.
  unfold fetch_url, fetch_result. cbn [seq].
  rewrite fetch_url_loop_step. cbv zeta.
  destruct (attempt_result (net (requests_sent st) url)) as [r0|e0].
  { eexists; split; [done|]. rewrite requests_sent_seen.
    unfold seen_attempt; destruct (verbose self); simpl; auto with lia. }
  cbn [Nat.ltb Nat.leb]. rewrite fetch_url_loop_step. cbv zeta.
  repeat (rewrite requests_sent_slept || rewrite requests_sent_seen).
  destruct (attempt_result (net (S (requests_sent st)) url)) as [r1|e1].
  { eexists; split; [done|]. repeat (rewrite requests_sent_slept || rewrite requests_sent_seen).
    unfold seen_attempt; destruct (verbose self); simpl; auto with lia. }
  cbn [Nat.ltb Nat.leb]. rewrite fetch_url_loop_step. cbv zeta.
  repeat (rewrite requests_sent_slept || rewrite requests_sent_seen).
  destruct (attempt_result (net (S (S (requests_sent st))) url)) as [r2|e2];
    cbn [Nat.ltb Nat.leb]; (eexists; split; [done|]);
    unfold seen_attempt, slept, warned; destruct (verbose self); simpl; auto with lia.
Qed.

End Fetch.

(** ** What the three resolvers compute *)

Lemma same_files_refl st : same_files st st.
Proof. by repeat split. Qed.

Lemma same_files_trans st1 st2 st3 :
  same_files st1 st2 → same_files st2 st3 → same_files st1 st3.
Proof.
  unfold same_files. intros (? & ? & ?) (? & ? & ?).
  repeat split; [congruence|congruence|lia].
Qed.

Lemma same_files_emit e st : same_files st (emit e st).
Proof. by repeat split. Qed.

Create HintDb files.
Global Hint Resolve same_files_refl same_files_emit : files.

Lemma exists_run p st :
  Fs.exists_ p st = (Ok (bool_decide (is_Some (Fs.node_at (fs st) p))), st).
Proof. reflexivity. Qed.

Lemma read_text_run p st :
  Fs.read_text p st =
  (match Fs.node_at (fs st) p with
   | Some (File content) => Ok content
   | Some Dir => Raise (IsADirectoryError p)
   | None => Raise (FileNotFoundError p)
   end, st).
Proof.
  unfold Fs.read_text. rewrite bind_unfold. unfold get.
  by destruct (Fs.node_at (fs st) p) as [[]|].
Qed.

Lemma node_at_joinpath (m : gmap path node) d name :
  Fs.node_at m (d </> name) = m !! (d </> name).
Proof. unfold joinpath. by destruct d. Qed.

Section Resolve.

Variable net : nat → string → outcome.
Variable self : WordListUpdater.

Lemma answers_from_json_run st :
  ∃ st', answers_from_json net self st = (Ok (remote_answers net (requests_sent st)), st') ∧
         same_files st st'.
Proof.
  unfold answers_from_json, remote_answers, try_except, same_files.
  rewrite bind_unfold.
  destruct (fetch_url_run net self WORDLE_ANSWERS_URL st) as (st1 & -> & Hfs & Hch & Hn).
  destruct (fetch_result net (requests_sent st) WORDLE_ANSWERS_URL) as [r|e]; simpl.
  2: { eexists; split; [reflexivity|]. simpl. auto. }
  rewrite bind_unfold.
  destruct (json_body r) as [data|]; simpl.
  2: { eexists; split; [reflexivity|]. simpl. auto. }
  unfold solutions_of. rewrite bind_unfold. unfold lift.
  destruct (Json.contains "solutions" data) as [[]|e]; simpl.
  2,3: eexists; split; [reflexivity|]; simpl; auto.
  rewrite bind_unfold.
  destruct (Json.getitem data "solutions") as [sol|e]; simpl.
  2: eexists; split; [reflexivity|]; simpl; auto.
  rewrite bind_unfold.
  destruct (Json.iter sol) as [ws|e]; simpl.
  2: eexists; split; [reflexivity|]; simpl; auto.
  destruct (Json.update_lowered ∅ ws) as [past [e|]]; simpl;
    eexists; (split; [reflexivity|]); simpl; auto.
Qed.

Lemma fetch_past_wordle_answers_run st :
  ∃ st', fetch_past_wordle_answers net self st =
           (past_answers_of (remote_answers net (requests_sent st))
              (fs st !! (DATA_DIR </> "past-answers.txt")), st') ∧
         same_files st st'.
Proof.
  unfold fetch_past_wordle_answers, past_answers_of, log.
  rewrite bind_unfold. cbn [modify]. rewrite bind_unfold.
  destruct (answers_from_json_run (emit (Log INFO "Fetching past Wordle answers from NYTimes..." []) st))
    as (st1 & -> & Hsame).
  cbn [requests_sent emit] in *.
  assert (Hst : same_files st st1).
  { eapply same_files_trans; [apply same_files_emit|done]. }
  clear Hsame. set (remote := remote_answers net (requests_sent st)). clearbody remote.
  rewrite bind_unfold.
  case_bool_decide as Hempty; cbn [modify ret].
  2: { eexists; split; [reflexivity|done]. }
  rewrite bind_unfold. cbn [modify]. rewrite bind_unfold, exists_run.
  rewrite node_at_joinpath. cbn [fs emit].
  destruct Hst as (Hfs & Hch & Hn). rewrite Hfs.
  destruct (fs st !! (DATA_DIR </> "past-answers.txt")) as [[content|]|] eqn:Hnode.
  - rewrite bool_decide_eq_true_2 by eauto.
    rewrite bind_unfold, read_text_run, node_at_joinpath. cbn [fs emit]. rewrite Hfs, Hnode.
    rewrite bind_unfold. cbn [modify local_words ret].
    eexists; split; [reflexivity|]. by repeat split.
  - rewrite bool_decide_eq_true_2 by eauto.
    rewrite bind_unfold, read_text_run, node_at_joinpath. cbn [fs emit]. rewrite Hfs, Hnode.
    cbn [local_words]. eexists; split; [reflexivity|]. by repeat split.
  - rewrite bool_decide_eq_false_2 by (by intros [? ?]).
    cbn [local_words ret]. eexists; split; [reflexivity|]. by repeat split.
Qed.

Lemma fetch_comprehensive_wordlist_run st :
  ∃ st', fetch_comprehensive_wordlist net self st =
           (all_words_of (scrabble_words net (requests_sent st))
              (fs st !! (DATA_DIR </> "words.txt")), st') ∧
         same_files st st'.
Proof.
  unfold fetch_comprehensive_wordlist, all_words_of, scrabble_words, log.
  rewrite bind_unfold. cbn [modify]. rewrite bind_unfold, exists_run, node_at_joinpath.
  cbn [fs emit]. rewrite bind_unfold.
  set (st0 := emit _ st).
  assert (∃ st1 seed,
    (if bool_decide (is_Some (fs st !! (DATA_DIR </> "words.txt")))
     then content ← Fs.read_text (DATA_DIR </> "words.txt");
          modify (emit (Log INFO "Loaded {} existing words"
            [ANat (size (list_to_set (Text.lines content) : gset string))]));;
          ret (list_to_set (Text.lines content) : gset string)
     else ret ∅) st0 = (seed, st1) ∧ same_files st st1 ∧
    requests_sent st1 = requests_sent st ∧
    match local_words (fs st !! (DATA_DIR </> "words.txt")) (DATA_DIR </> "words.txt") with
    | Ok s => seed = Ok (default ∅ s)
    | Raise e => seed = Raise e
    end) as (st1 & seed & -> & Hsame & Hreq & Hseed).
  { destruct (fs st !! (DATA_DIR </> "words.txt")) as [[content|]|] eqn:Hnode.
    - rewrite bool_decide_eq_true_2 by eauto.
      rewrite bind_unfold, read_text_run, node_at_joinpath. subst st0. cbn [fs emit].
      rewrite Hnode, bind_unfold. cbn [modify ret local_words].
      do 2 eexists. split; [reflexivity|]. by repeat split.
    - rewrite bool_decide_eq_true_2 by eauto.
      rewrite bind_unfold, read_text_run, node_at_joinpath. subst st0. cbn [fs emit].
      rewrite Hnode. cbn [local_words].
      do 2 eexists. split; [reflexivity|]. by repeat split.
    - rewrite bool_decide_eq_false_2 by (by intros [? ?]).
      cbn [ret local_words]. do 2 eexists. split; [reflexivity|]. by repeat split. }
  destruct (local_words (fs st !! (DATA_DIR </> "words.txt")) (DATA_DIR </> "words.txt"))
    as [s|e]; subst seed; [|eexists; split; [reflexivity|done]].
  unfold try_except. rewrite bind_unfold.
  destruct (fetch_url_run net self FALLBACK_SCRABBLE_URL st1) as (st2 & -> & Hfs & Hch & Hn).
  rewrite Hreq.
  assert (Hst2 : same_files st st2).
  { eapply same_files_trans; [exact Hsame|]. by repeat split. }
  destruct (fetch_result net (requests_sent st) FALLBACK_SCRABBLE_URL) as [r|e];
    cbn [some_response Exception scrabble_words_of].
  - rewrite bind_unfold. cbn [response_text ret].
    rewrite bind_unfold. destruct (_ <? _); cbn [modify ret];
      (eexists; split; [reflexivity|]); [|done].
    destruct Hst2 as (? & ? & ?). by repeat split.
  - rewrite bind_unfold. cbn [modify ret].
    eexists; split; [by rewrite (right_id_L ∅ (∪))|].
    destruct Hst2 as (? & ? & ?). by repeat split.
Qed.

Lemma determine_common_words_run all_words past_answers st :
  ∃ st', determine_common_words all_words past_answers st =
           (common_words_of all_words past_answers
              (fs st !! (DATA_DIR </> "common-words.txt")), st') ∧
         same_files st st' ∧ requests_sent st' = requests_sent st.
Proof.
  unfold determine_common_words, common_words_of, log.
  rewrite bind_unfold. cbn [modify]. rewrite bind_unfold, exists_run, node_at_joinpath.
  cbn [fs emit]. rewrite bind_unfold.
  rewrite (left_id_L ∅ (∪)).
  destruct (fs st !! (DATA_DIR </> "common-words.txt")) as [[content|]|] eqn:Hnode.
  - rewrite bool_decide_eq_true_2 by eauto.
    rewrite bind_unfold, read_text_run, node_at_joinpath. cbn [fs emit].
    rewrite Hnode. cbn [ret local_words default]. rewrite bind_unfold. cbn [modify].
    eexists. split; [reflexivity|]. by repeat split.
  - rewrite bool_decide_eq_true_2 by eauto.
    rewrite bind_unfold, read_text_run, node_at_joinpath. cbn [fs emit].
    rewrite Hnode. cbn [local_words].
    eexists. split; [reflexivity|]. by repeat split.
  - rewrite bool_decide_eq_false_2 by (by intros [? ?]).
    cbn [ret local_words default]. rewrite bind_unfold. cbn [modify].
    rewrite (right_id_L ∅ (∪)).
    eexists. split; [reflexivity|]. by repeat split.
Qed.

End Resolve.


(** ** Text *)





Lemma isalpha_lower_char c :
  Text.isalpha_char c = true → Text.is_lower (Text.lower_char c) = true.
Proof. by destruct c as [[] [] [] [] [] [] [] []]. Qed.

Lemma split_not_nil sep s : Text.split sep s ≠ [].
Proof.
  destruct s as [|c s]; simpl; [done|].
  destruct (Ascii.eqb c sep); [done|]. by destruct (Text.split sep s).
Qed.

Lemma lines_not_nil content : Text.lines content ≠ [].
Proof. apply split_not_nil. Qed.

Lemma list_to_set_not_empty (l : list string) :
  l ≠ [] → (list_to_set l : gset string) ≠ ∅.
Proof.
  destruct l as [|w l]; [done|]. intros _ Hempty.
  assert (w ∈ (list_to_set (w :: l) : gset string)) as Hin by set_solver.
  rewrite Hempty in Hin. set_solver.
Qed.

(** ** The filters on remote words *)




Lemma scrabble_words_of_words r w :
  w ∈ scrabble_words_of r →
  ∃ s, Text.len s = 5 ∧ Text.isalpha s = true ∧ w = Text.lower s.
Proof.
  destruct r as [r|e]; simpl; [|set_solver].
  rewrite elem_of_list_to_set, list_elem_of_fmap.
  intros (s & -> & Hs). apply list_elem_of_filter in Hs as [[Hlen Halpha] _].
  exists s. split; [apply Hlen|]. split; [|done]. by apply Is_true_true.
Qed.

Lemma all_alpha_lower t :
  Text.all_chars Text.isalpha_char t = true →
  Text.all_chars Text.isalpha_char (Text.lower t) = true.
Proof.
  induction t as [|c t IH]; simpl; [done|].
  intros [Hc Ht]%andb_true_iff. rewrite IH by done.
  unfold Text.isalpha_char. by rewrite (isalpha_lower_char c Hc), orb_true_r.
Qed.

Lemma isalpha_lower s : Text.isalpha s = true → Text.isalpha (Text.lower s) = true.
Proof. destruct s as [|c s]; [done|]. apply (all_alpha_lower (String c s)). Qed.

Lemma attempts_fail_result net n url :
  attempts_fail net n url → ∃ e, fetch_result net n url = Raise e.
Proof.
  intros Hfail. unfold fetch_result.
  destruct (Hfail 0) as [e0 H0]; [lia|]. destruct (Hfail 1) as [e1 H1]; [lia|].
  destruct (Hfail 2) as [e2 H2]; [lia|].
  replace (n + 0) with n in H0 by lia. replace (n + 1) with (S n) in H1 by lia.
  replace (n + 2) with (S (S n)) in H2 by lia.
  rewrite H0, H1, H2. eauto.
Qed.

Lemma attempts_fail_no_answers net n :
  attempts_fail net n WORDLE_ANSWERS_URL → remote_answers net n = ∅.
Proof.
  intros [e He]%attempts_fail_result. unfold remote_answers. by rewrite He.
Qed.

Section Claims.

Variable net : nat → string → outcome.
Variable self : WordListUpdater.


(** C4: when the remote paths yield no answer and [past-answers.txt]
    exists, [fetch_past_wordle_answers] returns the lines of that file, a
    set that is never empty (for a file of [apple] and [beach], exactly
    these two words); it returns the empty set only when there is neither
    remote data nor a local file. *)
Theorem past_answers_fall_back (st : state) :
  (remote_answers net (requests_sent st) = ∅ →
   ∀ content, fs st !! (DATA_DIR </> "past-answers.txt") = Some (File content) →
     ∃ ws st', fetch_past_wordle_answers net self st = (Ok ws, st') ∧
               ws = list_to_set (Text.lines content) ∧ ws ≠ ∅ ∧
               (Text.lines content = ["apple"; "beach"] → ws = {["apple"; "beach"]})) ∧
  (remote_answers net (requests_sent st) = ∅ →
   fs st !! (DATA_DIR </> "past-answers.txt") = None →
     ∃ st', fetch_past_wordle_answers net self st = (Ok ∅, st')) ∧
  (∀ st', fetch_past_wordle_answers net self st = (Ok ∅, st') →
     remote_answers net (requests_sent st) = ∅ ∧
     fs st !! (DATA_DIR </> "past-answers.txt") = None).
Proof.
  destruct (fetch_past_wordle_answers_run net self st) as (st1 & Heq & _).
  rewrite Heq. unfold past_answers_of, local_words, known_recent.
  split; [|split].
  - intros -> content ->. rewrite bool_decide_eq_true_2 by done.
    eexists _, st1. split; [reflexivity|]. rewrite (right_id_L ∅ (∪)).
    split; [done|]. split; [apply list_to_set_not_empty, lines_not_nil|].
    intros ->. set_solver.
  - intros -> ->. rewrite bool_decide_eq_true_2 by done. by exists st1.
  - intros st'. case_bool_decide as Hremote.
    + destruct (fs st !! (DATA_DIR </> "past-answers.txt")) as [[content|]|]; [|done..].
      intros [= Hempty _]. rewrite (right_id_L ∅ (∪)) in Hempty.
      by apply list_to_set_not_empty in Hempty; [|apply lines_not_nil].
    + intros [= Hempty _]. done.
Qed.

(** C7: when the three requests for the dictionary fail,
    [fetch_comprehensive_wordlist] raises nothing and returns exactly the
    words read from the existing [words.txt], the empty set when there is
    no such file. *)
Theorem comprehensive_survives_failure (st : state) :
  attempts_fail net (requests_sent st) FALLBACK_SCRABBLE_URL →
  fs st !! (DATA_DIR </> "words.txt") ≠ Some Dir →
  ∃ st', fetch_comprehensive_wordlist net self st =
           (Ok (existing_words (fs st) "words.txt"), st') ∧
         fs st' = fs st.
Proof.
  intros [e He]%attempts_fail_result Hnode.
  destruct (fetch_comprehensive_wordlist_run net self st) as (st' & Heq & Hfs & _).
  exists st'. split; [|done]. rewrite Heq.
  unfold all_words_of, scrabble_words, existing_words, local_words. rewrite He. simpl.
  destruct (fs st !! (DATA_DIR </> "words.txt")) as [[content|]|]; [|done|];
    simpl; by rewrite (right_id_L ∅ (∪)).
Qed.

End Claims.

Lemma past_answers_fall_back_witness :
  ∃ ws st',
    fetch_past_wordle_answers no_network quiet (fresh apple_beach) = (Ok ws, st') ∧
    ws = {["apple"; "beach"]}.
Proof.
  destruct (past_answers_fall_back no_network quiet (fresh apple_beach)) as [Hfile _].
  destruct (Hfile ltac:(vm_compute; reflexivity)
              ("apple" +:+ Text.nl +:+ "beach" +:+ Text.nl) ltac:(vm_compute; reflexivity))
    as (ws & st' & Hrun & _ & _ & Hwords).
  exists ws, st'. split; [exact Hrun|]. apply Hwords. reflexivity.
Defined.

Lemma no_network_fails n url : attempts_fail no_network n url.
Proof. intros k _. by eexists. Qed.

Lemma comprehensive_survives_failure_witness :
  ∃ st', fetch_comprehensive_wordlist no_network quiet (fresh apple_beach) =
           (Ok (existing_words apple_beach "words.txt"), st') ∧
         fs st' = apple_beach.
Proof.
  apply (comprehensive_survives_failure no_network quiet (fresh apple_beach)).
  - apply no_network_fails.
  - vm_compute. discriminate.
Defined.


(** ** Frames: what a computation leaves in place *)

Section Frames.

Context {A B : Type}.
Variable K : path → Prop.

Lemma preserves_ret (a : A) : preserves K (mret a : M A).
Proof. by intros st. Qed.

Lemma preserves_raise e : preserves K (raise e : M A).
Proof. by intros st. Qed.

Lemma preserves_get (f : state → A) : preserves K (get f).
Proof. by intros st. Qed.

Lemma preserves_bind (c : M A) (k : A → M B) :
  preserves K c → (∀ a, preserves K (k a)) → preserves K (c ≫= k).
Proof.
  intros Hc Hk st. rewrite bind_unfold. specialize (Hc st).
  destruct (c st) as [[a|e] st1]; simpl in *; [|done].
  specialize (Hk a st1). destruct Hc as [Hc1 Hc2], Hk as [Hk1 Hk2].
  split; [|congruence]. intros q Hq. rewrite Hk1, Hc1; auto.
Qed.

Lemma preserves_try_except (c : M A) catches (h : exn → M A) :
  preserves K c → (∀ e, preserves K (h e)) → preserves K (try_except c catches h).
Proof.
  intros Hc Hh st. unfold try_except. specialize (Hc st).
  destruct (c st) as [[a|e] st1]; simpl in *; [done|].
  destruct (catches e); [|done].
  specialize (Hh e st1). destruct Hc as [Hc1 Hc2], Hh as [Hh1 Hh2].
  split; [|congruence]. intros q Hq. rewrite Hh1, Hc1; auto.
Qed.

End Frames.

Lemma preserves_emit K e : preserves K (modify (emit e)).
Proof. by intros st. Qed.

Lemma preserves_log K message args lvl : preserves K (log message args lvl).
Proof. apply preserves_emit. Qed.

Lemma preserves_verbose_log K self message args :
  preserves K (verbose_log self message args).
Proof. unfold verbose_log. destruct (verbose self); [apply preserves_log|apply preserves_ret]. Qed.

Lemma preserves_for_each {A} K (xs : list A) body :
  (∀ x, preserves K (body x)) → preserves K (for_each xs body).
Proof.
  intros Hbody. induction xs as [|x xs IH]; simpl; [apply preserves_ret|].
  apply preserves_bind; [apply Hbody|done].
Qed.

Lemma preserves_exists K p : preserves K (Fs.exists_ p).
Proof. apply preserves_get. Qed.

Lemma preserves_read_text K p : preserves K (Fs.read_text p).
Proof.
  unfold Fs.read_text. apply preserves_bind; [apply preserves_get|].
  intros [[]|]; (apply preserves_ret || apply preserves_raise).
Qed.

Lemma write_text_run p content st :
  Fs.write_text p content st =
  match Fs.node_at (fs st) p, Fs.node_at (fs st) (Fs.parent p) with
  | Some Dir, _ => (Raise (IsADirectoryError p), st)
  | _, Some Dir => (Ok tt, emit (WriteFile p content) (set_fs (insert p (File content)) st))
  | _, Some (File _) => (Raise (NotADirectoryError p), st)
  | _, None => (Raise (FileNotFoundError p), st)
  end.
Proof.
  unfold Fs.write_text. rewrite bind_unfold. cbn [get]. rewrite bind_unfold. cbn [get].
  by destruct (Fs.node_at (fs st) p) as [[]|], (Fs.node_at (fs st) (Fs.parent p)) as [[]|].
Qed.

Lemma preserves_write_text (K : path → Prop) p content :
  ¬ K p → preserves K (Fs.write_text p content).
Proof.
  intros Hp st. rewrite write_text_run.
  destruct (Fs.node_at (fs st) p) as [[]|], (Fs.node_at (fs st) (Fs.parent p)) as [[]|];
    simpl; (split; [|done]); try done;
    intros q Hq; apply lookup_insert_ne; by intros ->.
Qed.

Lemma preserves_mkdir_from (K : path → Prop) above below :
  (∀ q, q ∈ made above below → ¬ K q) → preserves K (Fs.mkdir_from above below).
Proof.
  revert above. induction below as [|c below IH]; intros above Hmade; simpl.
  { apply preserves_ret. }
  assert (¬ K (above ++ [c])) as Hhere by (apply Hmade; simpl; left).
  assert (preserves K (Fs.mkdir_from (above ++ [c]) below)) as Hrest.
  { apply IH. intros q Hq. apply Hmade. simpl. by right. }
  apply preserves_bind; [apply preserves_get|]. intros [[]|].
  - apply preserves_raise.
  - done.
  - apply preserves_bind.
    { intros st. simpl. split; [|done]. intros q Hq. apply lookup_insert_ne. by intros <-. }
    intros _. apply preserves_bind; [apply preserves_emit|done].
Qed.

Lemma preserves_mkdir (K : path → Prop) p :
  (∀ q, q ∈ made [] p → ¬ K q) → preserves K (Fs.mkdir p).
Proof. apply preserves_mkdir_from. Qed.

(** *** The data files under backups, directory creation and sync *)

Lemma data_path_length q : is_data_path q → length q = 2.
Proof.
  unfold is_data_path, data_paths, DATA_FILES. simpl.
  rewrite !elem_of_cons, elem_of_nil. by intros [->|[->|[->|[]]]].
Qed.

Lemma data_path_not_dir q : is_data_path q → q ≠ ["Data"; "backups"] ∧ q ≠ ["wwwroot"; "data"].
Proof.
  unfold is_data_path, data_paths, DATA_FILES. simpl.
  rewrite !elem_of_cons, elem_of_nil. by intros [->|[->|[->|[]]]].
Qed.

Lemma not_data_path q : length q ≠ 2 → ¬ is_data_path q.
Proof. intros Hlen Hq. by apply data_path_length in Hq. Qed.

Section FilesKept.

Variable strftime : nat → string.
Variable self : WordListUpdater.

Lemma backup_files_preserves : preserves is_data_path (backup_files strftime self).
Proof.
  unfold backup_files. destruct (dry_run self); [apply preserves_log|].
  apply preserves_bind.
  { apply preserves_mkdir. simpl. intros q. rewrite !elem_of_cons, elem_of_nil.
    intros [->|[->|[]]]; [by apply not_data_path|]. intros Hq. by apply data_path_not_dir in Hq as [? ?]. }
  intros _. apply preserves_bind; [apply preserves_get|]. intros timestamp.
  apply preserves_for_each. intros filename.
  apply preserves_bind; [apply preserves_exists|]. intros [|]; [|apply preserves_ret].
  apply preserves_bind; [apply preserves_read_text|]. intros content.
  apply preserves_bind; [|intros _; apply preserves_verbose_log].
  apply preserves_write_text. by apply not_data_path.
Qed.

Lemma sync_to_wwwroot_preserves : preserves is_data_path (sync_to_wwwroot self).
Proof.
  unfold sync_to_wwwroot. destruct (dry_run self); [apply preserves_log|].
  apply preserves_bind.
  { apply preserves_mkdir. simpl. intros q. rewrite !elem_of_cons, elem_of_nil.
    intros [->|[->|[]]]; [by apply not_data_path|]. intros Hq. by apply data_path_not_dir in Hq as [? ?]. }
  intros _. apply preserves_for_each. intros filename.
  apply preserves_bind; [apply preserves_exists|]. intros [|]; [|apply preserves_ret].
  apply preserves_bind; [apply preserves_read_text|]. intros content.
  apply preserves_bind; [|intros _; apply preserves_verbose_log].
  apply preserves_write_text. by apply not_data_path.
Qed.

Lemma mkdir_data_dir_preserves : preserves is_data_path (Fs.mkdir DATA_DIR).
Proof.
  apply preserves_mkdir. simpl. intros q. rewrite !elem_of_cons, elem_of_nil.
  intros [->|[]]. by apply not_data_path.
Qed.

End FilesKept.

(** ** [write_word_file], case by case *)

Section Writer.

Variable self : WordListUpdater.

Lemma node_at_nonempty (m : gmap path node) p : p ≠ [] → Fs.node_at m p = m !! p.
Proof. by destruct p. Qed.

(** The computed text equals the stripped text on disk: one log line and
    nothing else. *)
Lemma write_word_file_same filepath words description st :
  filepath ≠ [] →
  fs st !! filepath ≠ Some Dir →
  file_content words = Text.strip (existing_text (fs st !! filepath)) →
  write_word_file self filepath words description st =
  (Ok tt, emit (Log INFO "✓ No changes for {}" [AStr (default "" (last filepath))]) st).
Proof.
  intros Hp Hdir Hsame. unfold write_word_file, file_content in *.
  rewrite bind_unfold, exists_run, node_at_nonempty by done.
  destruct (fs st !! filepath) as [[content|]|] eqn:Hnode; [|done|].
  - rewrite bool_decide_eq_true_2 by eauto.
    rewrite bind_unfold, read_text_run, node_at_nonempty, Hnode by done.
    simpl in Hsame. by rewrite bool_decide_eq_false_2 by (by intros ?).
  - rewrite bool_decide_eq_false_2 by (by intros [? ?]).
    rewrite bind_unfold. cbn [ret]. simpl in Hsame.
    by rewrite bool_decide_eq_false_2 by (by intros ?).
Qed.

(** The texts differ, in dry-run mode: the flag and three log lines. *)
Lemma write_word_file_rehearsed filepath words description st :
  dry_run self = true →
  filepath ≠ [] →
  fs st !! filepath ≠ Some Dir →
  file_content words ≠ Text.strip (existing_text (fs st !! filepath)) →
  ∃ st', write_word_file self filepath words description st = (Ok tt, st') ∧
         fs st' = fs st ∧ changes_made st' = true ∧
         Forall (λ e, ∃ lvl msg args, e = Log lvl msg args) (since st st').
Proof.
  intros Hdry Hp Hdir Hdiff. unfold write_word_file, file_content in *.
  rewrite bind_unfold, exists_run, node_at_nonempty by done.
  assert (∀ content, existing_text (fs st !! filepath) = content →
    (if bool_decide (Text.join Text.nl (Text.sorted words) ≠ Text.strip content)
     then modify (set_changes_made true);;
          (if dry_run self
           then log "DRY RUN: Would update {} ({} words)"
                  [APath filepath; ANat (length (Text.sorted words))] INFO;;
                log "  Current: {} words" [ANat (length (split_blank content))] INFO;;
                log "  New: {} words" [ANat (length (Text.sorted words))] INFO
           else Fs.write_text filepath (Text.join Text.nl (Text.sorted words));;
                log "✓ Updated {}: {} {}"
                  [AStr (default "" (last filepath)); ANat (length (Text.sorted words));
                   AStr description] INFO)
     else log "✓ No changes for {}" [AStr (default "" (last filepath))] INFO) st =
    (Ok tt,
     emit (Log INFO "  New: {} words" [ANat (length (Text.sorted words))])
       (emit (Log INFO "  Current: {} words" [ANat (length (split_blank content))])
          (emit (Log INFO "DRY RUN: Would update {} ({} words)"
                   [APath filepath; ANat (length (Text.sorted words))])
             (set_changes_made true st))))) as Hrest.
  { intros content Hcontent. rewrite Hcontent in Hdiff.
    rewrite bool_decide_eq_true_2 by done. by rewrite Hdry. }
  destruct (fs st !! filepath) as [[content|]|] eqn:Hnode; [|done|].
  - rewrite bool_decide_eq_true_2 by eauto.
    rewrite bind_unfold, read_text_run, node_at_nonempty, Hnode by done.
    rewrite (Hrest content eq_refl). eexists. split; [done|]. repeat split.
    unfold since. simpl. rewrite <- !app_assoc, drop_app_length. simpl.
    repeat constructor; eauto.
  - rewrite bool_decide_eq_false_2 by (by intros [? ?]).
    rewrite bind_unfold. cbn [ret].
    rewrite (Hrest "" eq_refl). eexists. split; [done|]. repeat split.
    unfold since. simpl. rewrite <- !app_assoc, drop_app_length. simpl.
    repeat constructor; eauto.
Qed.

(** The texts differ, outside dry-run mode, in an existing directory: the
    file is written. *)
Lemma write_word_file_written filepath words description st :
  dry_run self = false →
  filepath ≠ [] →
  fs st !! filepath ≠ Some Dir →
  Fs.node_at (fs st) (Fs.parent filepath) = Some Dir →
  file_content words ≠ Text.strip (existing_text (fs st !! filepath)) →
  write_word_file self filepath words description st =
  (Ok tt,
   emit (Log INFO "✓ Updated {}: {} {}"
           [AStr (default "" (last filepath)); ANat (length (Text.sorted words));
            AStr description])
     (emit (WriteFile filepath (file_content words))
        (set_fs (insert filepath (File (file_content words)))
           (set_changes_made true st)))).
Proof.
  intros Hdry Hp Hdir Hparent Hdiff. unfold write_word_file, file_content in *.
  rewrite bind_unfold, exists_run, node_at_nonempty by done.
  destruct (fs st !! filepath) as [[content|]|] eqn:Hnode; [|done|].
  - rewrite bool_decide_eq_true_2 by eauto.
    rewrite bind_unfold, read_text_run, node_at_nonempty, Hnode by done.
    simpl in Hdiff. rewrite bool_decide_eq_true_2 by done.
    rewrite bind_unfold. cbn [modify]. rewrite Hdry, bind_unfold, write_text_run.
    cbn [fs set_changes_made]. by rewrite node_at_nonempty, Hnode, Hparent by done.
  - rewrite bool_decide_eq_false_2 by (by intros [? ?]).
    rewrite bind_unfold. cbn [ret]. simpl in Hdiff.
    rewrite bool_decide_eq_true_2 by done.
    rewrite bind_unfold. cbn [modify]. rewrite Hdry, bind_unfold, write_text_run.
    cbn [fs set_changes_made]. by rewrite node_at_nonempty, Hnode, Hparent by done.
Qed.

(** In every case, outside dry-run mode: only [filepath] can change, and
    when the call returns its node is [after_write]. *)
Lemma write_word_file_files filepath words description st :
  dry_run self = false →
  filepath ≠ [] →
  let '(r, st') := write_word_file self filepath words description st in
  (∀ q, q ≠ filepath → fs st' !! q = fs st !! q) ∧
  (fs st' !! filepath = fs st !! filepath ∨
   fs st' !! filepath = after_write (fs st !! filepath) words) ∧
  (r = Ok tt → fs st' !! filepath = after_write (fs st !! filepath) words).
Proof.
  intros Hdry Hp.
  destruct (decide (fs st !! filepath = Some Dir)) as [Hdir|Hdir].
  { unfold write_word_file.
    rewrite bind_unfold, exists_run, node_at_nonempty, Hdir by done.
    rewrite bool_decide_eq_true_2 by eauto.
    rewrite bind_unfold, read_text_run, node_at_nonempty, Hdir by done.
    split; [done|]. split; [by left|done]. }
  destruct (decide (file_content words = Text.strip (existing_text (fs st !! filepath))))
    as [Hsame|Hdiff].
  { rewrite write_word_file_same by done. cbn [fs emit]. unfold after_write.
    rewrite bool_decide_eq_true_2 by done. split; [done|]. split; [by left|done]. }
  destruct (Fs.node_at (fs st) (Fs.parent filepath)) as [[content'|]|] eqn:Hparent.
  2: { rewrite write_word_file_written by done. cbn [fs emit set_fs set_changes_made].
       unfold after_write. rewrite bool_decide_eq_false_2 by done.
       rewrite lookup_insert_eq.
       split; [intros q Hq; by apply lookup_insert_ne|]. split; [by right|done]. }
  all: unfold write_word_file, file_content in *;
    rewrite bind_unfold, exists_run, node_at_nonempty by done;
    destruct (fs st !! filepath) as [[content|]|] eqn:Hnode; [|done|].
  all: try (rewrite bool_decide_eq_true_2 by eauto;
            rewrite bind_unfold, read_text_run, node_at_nonempty, Hnode by done).
  all: try (rewrite bool_decide_eq_false_2 by (by intros [? ?]);
            rewrite bind_unfold; cbn [ret]).
  all: simpl in Hdiff; rewrite bool_decide_eq_true_2 by done;
    rewrite bind_unfold; cbn [modify]; rewrite Hdry, bind_unfold, write_text_run;
    cbn [fs set_changes_made]; rewrite node_at_nonempty, Hnode, Hparent by done;
    (split; [done|]); (split; [by left|done]).
Qed.

End Writer.

(** ** A whole run, seen from the three data files *)

Lemma data_path_past : is_data_path (DATA_DIR </> "past-answers.txt").
Proof. unfold is_data_path, data_paths, DATA_FILES. simpl. set_solver. Qed.

Lemma data_path_common : is_data_path (DATA_DIR </> "common-words.txt").
Proof. unfold is_data_path, data_paths, DATA_FILES. simpl. set_solver. Qed.

Lemma data_path_words : is_data_path (DATA_DIR </> "words.txt").
Proof. unfold is_data_path, data_paths, DATA_FILES. simpl. set_solver. Qed.


Ltac distinct_paths := unfold joinpath, DATA_DIR; simpl; discriminate.

Section Run.

Variable net : nat → string → outcome.
Variable strftime : nat → string.
Variable self : WordListUpdater.

Lemma fetch_data_run st :
  ∃ n2 st',
    fetch_data net self st =
      (data_of (remote_answers net (requests_sent st)) (scrabble_words net n2)
         (fs st !! (DATA_DIR </> "past-answers.txt"))
         (fs st !! (DATA_DIR </> "words.txt"))
         (fs st !! (DATA_DIR </> "common-words.txt")), st') ∧
    same_files st st' ∧ requests_sent st ≤ n2.
Proof.
  unfold fetch_data, data_of. rewrite bind_unfold.
  destruct (fetch_past_wordle_answers_run net self st) as (st1 & -> & Hst1).
  assert (Hfs1 : fs st1 = fs st) by apply Hst1.
  assert (Hn1 : requests_sent st ≤ requests_sent st1) by apply Hst1.
  exists (requests_sent st1).
  destruct (past_answers_of _ _) as [past_answers|e].
  2: { exists st1. split; [done|]. split; [done|lia]. }
  rewrite bind_unfold.
  destruct (fetch_comprehensive_wordlist_run net self st1) as (st2 & -> & Hst2).
  rewrite Hfs1.
  destruct (all_words_of _ _) as [all_words|e].
  2: { exists st2. split; [done|]. split; [by eapply same_files_trans|lia]. }
  rewrite bind_unfold.
  destruct (determine_common_words_run all_words past_answers st2)
    as (st3 & -> & Hst3 & _).
  assert (Hfs2 : fs st2 = fs st) by (destruct Hst2 as (-> & _); done). rewrite Hfs2.
  exists st3.
  assert (same_files st st3) as Hst.
  { eapply same_files_trans; [exact Hst1|]. by eapply same_files_trans. }
  destruct (common_words_of _ _ _) as [common_words|e]; (split; [done|]); split; done || lia.
Qed.

(** The three writes of a run, outside dry-run mode. *)
Lemma write_updated_files_files past_answers all_words common_words st :
  dry_run self = false →
  let '(r, st') := write_updated_files self (past_answers, all_words, common_words) st in
  let past := DATA_DIR </> "past-answers.txt" in
  let words := DATA_DIR </> "words.txt" in
  let common := DATA_DIR </> "common-words.txt" in
  (fs st' !! past = fs st !! past ∨
   fs st' !! past = after_write (fs st !! past) past_answers) ∧
  (fs st' !! words = fs st !! words ∨
   fs st' !! words = after_write (fs st !! words) all_words) ∧
  (fs st' !! common = fs st !! common ∨
   fs st' !! common = after_write (fs st !! common) common_words) ∧
  (r = Ok tt →
   fs st' !! past = after_write (fs st !! past) past_answers ∧
   fs st' !! words = after_write (fs st !! words) all_words ∧
   fs st' !! common = after_write (fs st !! common) common_words).
Proof.
  intros Hdry. unfold write_updated_files. rewrite bind_unfold.
  pose proof (write_word_file_files self (DATA_DIR </> "past-answers.txt") past_answers
                "past Wordle answers" st Hdry ltac:(done)) as H1.
  destruct (write_word_file self (DATA_DIR </> "past-answers.txt") _ _ st) as [r1 st1].
  destruct H1 as (H1o & H1p & H1r).
  destruct r1 as [[]|e1].
  2: { cbv beta iota zeta.
       rewrite (H1o (DATA_DIR </> "words.txt")), (H1o (DATA_DIR </> "common-words.txt"))
         by distinct_paths.
       split; [done|]. split; [by left|]. split; [by left|done]. }
  specialize (H1r eq_refl). rewrite bind_unfold.
  pose proof (write_word_file_files self (DATA_DIR </> "common-words.txt") common_words
                "common words" st1 Hdry ltac:(done)) as H2.
  destruct (write_word_file self (DATA_DIR </> "common-words.txt") _ _ st1) as [r2 st2].
  destruct H2 as (H2o & H2p & H2r).
  destruct r2 as [[]|e2].
  2: { cbv beta iota zeta.
       rewrite (H2o (DATA_DIR </> "words.txt")), (H2o (DATA_DIR </> "past-answers.txt"))
         by distinct_paths.
       rewrite (H1o (DATA_DIR </> "words.txt")) by distinct_paths.
       rewrite (H1o (DATA_DIR </> "common-words.txt")) in H2p by distinct_paths.
       split; [by right|]. split; [by left|]. split; [done|done]. }
  specialize (H2r eq_refl).
  pose proof (write_word_file_files self (DATA_DIR </> "words.txt") all_words
                "total words" st2 Hdry ltac:(done)) as H3.
  destruct (write_word_file self (DATA_DIR </> "words.txt") _ _ st2) as [r3 st3].
  destruct H3 as (H3o & H3p & H3r).
  rewrite (H1o (DATA_DIR </> "common-words.txt")) in H2p, H2r by distinct_paths.
  rewrite (H2o (DATA_DIR </> "words.txt")), (H1o (DATA_DIR </> "words.txt")) in H3p, H3r by distinct_paths.
  cbv beta iota zeta.
  rewrite (H3o (DATA_DIR </> "past-answers.txt")), (H3o (DATA_DIR </> "common-words.txt"))
    by distinct_paths.
  rewrite (H2o (DATA_DIR </> "past-answers.txt")) by distinct_paths.
  split; [by right|]. split; [done|]. split; [by right|].
  intros Hr. by rewrite H3r.
Qed.

(** What the end of [run_body] does once the files are synced: it logs
    and returns 0. *)
Lemma run_body_tail start st :
  ∃ st', (now ← get clock;
          log "=== Update Complete ({}s) ===" [ANat (now - start)] INFO;;
          changed ← get changes_made;
          if changed : bool then
            log "✓ Changes detected and files updated" [] SUCCESS;; ret 0%Z
          else
            log "ℹ No changes needed - files are up to date" [] INFO;; ret 0%Z) st
         = (Ok 0%Z, st') ∧ fs st' = fs st.
Proof.
  rewrite bind_unfold. cbn [get]. unfold log. rewrite bind_unfold. cbn [modify].
  rewrite bind_unfold. cbn [get changes_made emit].
  destruct (changes_made st); rewrite bind_unfold; cbn [modify]; by eexists.
Qed.

(** A run outside dry-run mode, seen from the data files: either it raised
    before writing and they are as before, or the three sets were computed
    and each file is as before or as [write_word_file] leaves it; when the
    body returns, it returns 0 and all three are as written. *)
Lemma run_body_files start st :
  dry_run self = false →
  let '(r, st') := run_body net strftime self start st in
  let past := DATA_DIR </> "past-answers.txt" in
  let words := DATA_DIR </> "words.txt" in
  let common := DATA_DIR </> "common-words.txt" in
  ((∃ e, r = Raise e) ∧ ∀ q, is_data_path q → fs st' !! q = fs st !! q) ∨
  ∃ n1 n2 past_answers all_words common_words,
    data_of (remote_answers net n1) (scrabble_words net n2)
      (fs st !! past) (fs st !! words) (fs st !! common)
      = Ok (past_answers, all_words, common_words) ∧
    (fs st' !! past = fs st !! past ∨
     fs st' !! past = after_write (fs st !! past) past_answers) ∧
    (fs st' !! words = fs st !! words ∨
     fs st' !! words = after_write (fs st !! words) all_words) ∧
    (fs st' !! common = fs st !! common ∨
     fs st' !! common = after_write (fs st !! common) common_words) ∧
    (∀ z, r = Ok z →
       z = 0%Z ∧
       fs st' !! past = after_write (fs st !! past) past_answers ∧
       fs st' !! words = after_write (fs st !! words) all_words ∧
       fs st' !! common = after_write (fs st !! common) common_words).
Proof.
  intros Hdry. unfold run_body. rewrite bind_unfold.
  destruct (backup_files_preserves strftime self st) as [Hb _].
  destruct (backup_files strftime self st) as [[[]|e] st1]; cbn [snd] in Hb.
  2: { left. split; [by eexists|done]. }
  rewrite bind_unfold.
  destruct (fetch_data_run st1) as (n2 & st2 & -> & (Hfs2 & _ & _) & _).
  rewrite !Hb by (apply data_path_past || apply data_path_words || apply data_path_common).
  destruct (data_of _ _ _ _ _) as [[[past_answers all_words] common_words]|e] eqn:Hdata.
  2: { left. split; [by eexists|]. intros q Hq. rewrite Hfs2. by apply Hb. }
  rewrite bind_unfold.
  destruct (mkdir_data_dir_preserves st2) as [Hm _].
  destruct (Fs.mkdir DATA_DIR st2) as [[[]|e] st3]; cbn [snd] in Hm.
  2: { left. split; [by eexists|]. intros q Hq. rewrite Hm, Hfs2 by done. by apply Hb. }
  assert (∀ q, is_data_path q → fs st3 !! q = fs st !! q) as H3.
  { intros q Hq. rewrite Hm, Hfs2 by done. by apply Hb. }
  clear Hb Hfs2 Hm. rewrite bind_unfold.
  pose proof (write_updated_files_files past_answers all_words common_words st3 Hdry) as Hw.
  destruct (write_updated_files self _ st3) as [rw st4].
  cbv beta iota zeta in Hw.
  rewrite !H3 in Hw by (apply data_path_past || apply data_path_words || apply data_path_common).
  destruct Hw as (Hp & Hwd & Hc & Hok).
  destruct rw as [[]|e].
  2: { right. exists (requests_sent st1), n2, past_answers, all_words, common_words.
       split; [done|]. split; [done|]. split; [done|]. split; [done|].
       by intros z. }
  specialize (Hok eq_refl). destruct Hok as (Hp' & Hwd' & Hc').
  rewrite bind_unfold.
  destruct (sync_to_wwwroot_preserves self st4) as [Hs _].
  destruct (sync_to_wwwroot self st4) as [[[]|e] st5]; cbn [snd] in Hs.
  2: { right. exists (requests_sent st1), n2, past_answers, all_words, common_words.
       rewrite !Hs by (apply data_path_past || apply data_path_words || apply data_path_common).
       split; [done|]. split; [done|]. split; [done|]. split; [done|]. by intros z. }
  destruct (run_body_tail start st5) as (st6 & -> & Hfs6).
  right. exists (requests_sent st1), n2, past_answers, all_words, common_words.
  rewrite Hfs6.
  rewrite !Hs by (apply data_path_past || apply data_path_words || apply data_path_common).
  split; [done|]. split; [by right|]. split; [by right|]. split; [by right|].
  intros z [= <-]. done.
Qed.

End Run.

(** ** Stripping, splitting and joining *)

Lemma append_cons c s t : String c s +:+ t = String c (s +:+ t).
Proof. reflexivity. Qed.

Lemma append_nil_l t : "" +:+ t = t.
Proof. reflexivity. Qed.

Lemma append_nil_r s : s +:+ "" = s.
Proof. induction s as [|c s IH]; [done|]. by rewrite ?append_cons, IH. Qed.

Lemma append_assoc s t u : (s +:+ t) +:+ u = s +:+ (t +:+ u).
Proof. induction s as [|c s IH]; [done|]. by rewrite ?append_cons, IH. Qed.

Lemma lstrip_length s : String.length (Text.lstrip s) ≤ String.length s.
Proof. induction s as [|c s IH]; simpl; [done|]. destruct (Text.isspace_char c); simpl; lia. Qed.

Lemma rstrip_length s : String.length (Text.rstrip s) ≤ String.length s.
Proof.
  induction s as [|c s IH]; simpl; [done|].
  destruct (Text.rstrip s); [destruct (Text.isspace_char c)|]; simpl in *; lia.
Qed.

Lemma lstrip_fixed s : String.length (Text.lstrip s) = String.length s → Text.lstrip s = s.
Proof.
  destruct s as [|c s]; simpl; [done|].
  destruct (Text.isspace_char c); [|done].
  pose proof (lstrip_length s). lia.
Qed.

Lemma strip_fixed s : Text.strip s = s → Text.lstrip s = s ∧ Text.rstrip s = s.
Proof.
  unfold Text.strip. intros Hs.
  assert (Text.lstrip s = s) as Hl.
  { apply lstrip_fixed. pose proof (lstrip_length s).
    pose proof (rstrip_length (Text.lstrip s)). rewrite Hs in *. lia. }
  split; [done|]. by rewrite Hl in Hs.
Qed.

Lemma lstrip_blank_app pre s : blank pre → Text.lstrip (pre +:+ s) = Text.lstrip s.
Proof.
  unfold blank. induction pre as [|c pre IH]; [done|]. simpl.
  intros [Hc Hpre]%andb_true_iff. rewrite ?append_cons. simpl. rewrite Hc. auto.
Qed.

Lemma rstrip_blank post : blank post → Text.rstrip post = "".
Proof.
  unfold blank. induction post as [|c post IH]; [done|]. simpl.
  intros [Hc Hpost]%andb_true_iff. by rewrite IH, Hc.
Qed.

Lemma rstrip_app_blank s post : blank post → Text.rstrip (s +:+ post) = Text.rstrip s.
Proof.
  intros Hpost. induction s as [|c s IH]; [by apply rstrip_blank|].
  rewrite ?append_cons. simpl. by rewrite IH.
Qed.

Lemma strip_blank s : blank s → Text.strip s = "".
Proof.
  intros Hs. unfold Text.strip.
  rewrite <- (append_nil_r s), lstrip_blank_app by done. done.
Qed.

(** Blank text around a text that stripping leaves alone is stripped away. *)
Lemma strip_surrounded pre s post :
  blank pre → blank post → Text.strip s = s → Text.strip (pre +:+ s +:+ post) = s.
Proof.
  intros Hpre Hpost [Hl Hr]%strip_fixed. unfold Text.strip.
  rewrite lstrip_blank_app by done.
  destruct s as [|c s].
  { rewrite append_nil_l. change (Text.strip post = ""). by apply strip_blank. }
  rewrite ?append_cons. simpl in Hl |- *.
  destruct (Text.isspace_char c) eqn:Hc.
  { pose proof (lstrip_length s). apply (f_equal String.length) in Hl. simpl in Hl. lia. }
  rewrite <- append_cons, rstrip_app_blank by done. done.
Qed.

Lemma rstrip_app s t : Text.rstrip t ≠ "" → Text.rstrip (s +:+ t) = s +:+ Text.rstrip t.
Proof.
  intros Ht. induction s as [|c s IH]; [done|].
  rewrite ?append_cons. simpl. rewrite IH.
  destruct (s +:+ Text.rstrip t) eqn:Heq; [|done].
  destruct s; [|done]. by rewrite append_nil_l in Heq.
Qed.

Lemma rstrip_no_space w :
  Text.all_chars (λ c, negb (Text.isspace_char c)) w = true → Text.rstrip w = w.
Proof.
  induction w as [|c w IH]; [done|]. simpl.
  intros [Hc Hw]%andb_true_iff. rewrite IH by done.
  destruct w; [|done]. by destruct (Text.isspace_char c).
Qed.

Lemma clean_inv w :
  clean w = true →
  ∃ c w', w = String c w' ∧ Text.isspace_char c = false ∧
          Text.all_chars (λ c, negb (Text.isspace_char c)) w = true.
Proof.
  destruct w as [|c w']; [done|]. unfold clean. intros Hall.
  exists c, w'. split; [done|]. split; [|done].
  simpl in Hall. apply andb_true_iff in Hall as [Hc _]. by destruct (Text.isspace_char c).
Qed.

Lemma join_cons_cons sep w w' ws :
  Text.join sep (w :: w' :: ws) = w +:+ sep +:+ Text.join sep (w' :: ws).
Proof. reflexivity. Qed.

Lemma isspace_NL : Text.isspace_char Text.NL = true.
Proof. reflexivity. Qed.

Lemma join_clean_rstrip ws :
  Forall (λ w, clean w = true) ws → ws ≠ [] →
  Text.rstrip (Text.join Text.nl ws) = Text.join Text.nl ws ∧ Text.join Text.nl ws ≠ "".
Proof.
  induction ws as [|w ws IH]; [done|]. intros Hws _.
  apply Forall_cons in Hws as [Hw Hws].
  destruct (clean_inv w Hw) as (c & w' & -> & Hc & Hall).
  destruct ws as [|w2 ws].
  { simpl Text.join. split; [by apply rstrip_no_space|done]. }
  destruct (IH Hws ltac:(done)) as [IH1 IH2].
  rewrite join_cons_cons. split; [|done].
  assert (Text.rstrip (Text.nl +:+ Text.join Text.nl (w2 :: ws)) =
          Text.nl +:+ Text.join Text.nl (w2 :: ws)) as Hnl.
  { rewrite rstrip_app by (by rewrite IH1). by rewrite IH1. }
  rewrite rstrip_app; rewrite Hnl; done.
Qed.

Lemma strip_join_clean ws :
  Forall (λ w, clean w = true) ws →
  Text.strip (Text.join Text.nl ws) = Text.join Text.nl ws.
Proof.
  intros Hws. destruct ws as [|w ws]; [done|].
  destruct (join_clean_rstrip (w :: ws) Hws ltac:(done)) as [Hr _].
  unfold Text.strip.
  assert (Text.lstrip (Text.join Text.nl (w :: ws)) = Text.join Text.nl (w :: ws)) as ->; [|done].
  apply Forall_cons in Hws as [Hw _].
  destruct (clean_inv w Hw) as (c & w' & -> & Hc & _).
  destruct ws; [simpl; by rewrite Hc|].
  rewrite join_cons_cons, ?append_cons. simpl. by rewrite Hc.
Qed.

Lemma split_no_sep w :
  Text.all_chars (λ c, negb (Text.isspace_char c)) w = true → Text.split Text.NL w = [w].
Proof.
  induction w as [|c w IH]; [done|]. simpl. intros [Hc Hw]%andb_true_iff.
  destruct (Ascii.eqb_spec c Text.NL) as [->|_]; [done|]. by rewrite IH.
Qed.

Lemma split_app_nl w t :
  Text.all_chars (λ c, negb (Text.isspace_char c)) w = true →
  Text.split Text.NL (w +:+ Text.nl +:+ t) = w :: Text.split Text.NL t.
Proof.
  induction w as [|c w IH]; [done|]. simpl. intros [Hc Hw]%andb_true_iff.
  rewrite ?append_cons. simpl.
  destruct (Ascii.eqb_spec c Text.NL) as [->|_]; [done|]. by rewrite IH.
Qed.

Lemma split_join_clean ws :
  Forall (λ w, clean w = true) ws → ws ≠ [] →
  Text.split Text.NL (Text.join Text.nl ws) = ws.
Proof.
  induction ws as [|w ws IH]; [done|]. intros Hws _.
  apply Forall_cons in Hws as [Hw Hws].
  destruct (clean_inv w Hw) as (c & w' & -> & _ & Hall).
  destruct ws as [|w2 ws]; [by apply split_no_sep|].
  rewrite join_cons_cons, split_app_nl by done. by rewrite IH.
Qed.

Lemma lines_join_clean ws :
  Forall (λ w, clean w = true) ws → ws ≠ [] →
  Text.lines (Text.join Text.nl ws) = ws.
Proof.
  intros Hws Hne. unfold Text.lines. by rewrite strip_join_clean, split_join_clean.
Qed.

(** ** Word sets and their file content *)

Lemma sorted_Permutation (ws : gset string) : Text.sorted ws ≡ₚ elements ws.
Proof. apply merge_sort_Permutation. Qed.

Lemma sorted_Sorted (ws : gset string) : Sorted String.le (Text.sorted ws).
Proof. apply (Sorted_merge_sort String.le). Qed.

Lemma elem_of_sorted (ws : gset string) w : w ∈ Text.sorted ws ↔ w ∈ ws.
Proof. by rewrite sorted_Permutation, elem_of_elements. Qed.

Lemma list_to_set_sorted (ws : gset string) : list_to_set (Text.sorted ws) = ws.
Proof. rewrite sorted_Permutation. apply list_to_set_elements_L. Qed.

Lemma sorted_nil (ws : gset string) : Text.sorted ws = [] ↔ ws = ∅.
Proof.
  split.
  - intros Hnil. apply set_eq. intros w. rewrite <- elem_of_sorted, Hnil. set_solver.
  - intros ->. apply Permutation_nil_r. by rewrite sorted_Permutation, elements_empty.
Qed.


Lemma sorted_clean ws : clean_set ws → Forall (λ w, clean w = true) (Text.sorted ws).
Proof. intros Hws. apply Forall_forall. intros w Hw. by apply Hws, elem_of_sorted. Qed.

Lemma strip_file_content ws :
  clean_set ws → Text.strip (file_content ws) = file_content ws.
Proof. intros Hws. by apply strip_join_clean, sorted_clean. Qed.

Lemma words_of_file_content ws :
  clean_set ws → ws ≠ ∅ → list_to_set (Text.lines (file_content ws)) = ws.
Proof.
  intros Hws Hne. unfold file_content.
  rewrite lines_join_clean; [apply list_to_set_sorted|by apply sorted_clean|].
  by rewrite sorted_nil.
Qed.

Lemma file_content_not_empty ws : clean_set ws → ws ≠ ∅ → file_content ws ≠ "".
Proof.
  intros Hws Hne. unfold file_content.
  apply join_clean_rstrip; [by apply sorted_clean|by rewrite sorted_nil].
Qed.

Lemma clean_lines_set content :
  Forall (λ w, clean w = true) (Text.lines content) →
  clean_set (list_to_set (Text.lines content)).
Proof.
  intros Hall w Hw. apply elem_of_list_to_set in Hw.
  by apply (proj1 (Forall_forall _ _) Hall).
Qed.

Lemma clean_set_union ws1 ws2 : clean_set ws1 → clean_set ws2 → clean_set (ws1 ∪ ws2).
Proof. intros H1 H2 w [?|?]%elem_of_union; auto. Qed.

Lemma clean_set_empty : clean_set ∅.
Proof. intros w Hw. set_solver. Qed.

Lemma isalpha_not_space c : Text.isalpha_char c = true → Text.isspace_char c = false.
Proof. by destruct c as [[] [] [] [] [] [] [] []]. Qed.

Lemma isalpha_clean w : Text.isalpha w = true → clean w = true.
Proof.
  destruct w as [|c w]; [done|]. unfold Text.isalpha, clean.
  generalize (String c w). clear. intros s.
  induction s as [|c s IH]; simpl; [done|].
  intros [Hc Hs]%andb_true_iff. by rewrite (isalpha_not_space c Hc), IH.
Qed.

Lemma scrabble_words_clean r : clean_set (scrabble_words_of r).
Proof.
  intros w (s & _ & Halpha & ->)%scrabble_words_of_words.
  by apply isalpha_clean, isalpha_lower.
Qed.

(** ** Writing twice *)







(** ** The top level: [run] and [main] *)

Section TopLevel.

Variable net : nat → string → outcome.
Variable strftime : nat → string.

Lemma run_run self st :
  run net strftime self st =
  match run_body net strftime self (clock st)
          (emit (Log INFO "=== Starting Word List Update ===" []) st) with
  | (Ok status, st') => (Ok status, st')
  | (Raise e, st') =>
      (Ok 1%Z, emit (Traceback e) (emit (Log ERROR "Error during update: {}" [AExn e]) st'))
  end.
Proof.
  unfold run, log. rewrite bind_unfold. cbn [modify]. rewrite bind_unfold.
  cbn [get clock emit]. unfold try_except.
  by destruct (run_body _ _ _ _ _) as [[status|e] st'].
Qed.

Lemma run_body_status self start st status st' :
  run_body net strftime self start st = (Ok status, st') → status = 0%Z.
Proof.
  unfold run_body. rewrite bind_unfold.
  destruct (backup_files strftime self st) as [[[]|e] st1]; [|done].
  rewrite bind_unfold. destruct (fetch_data net self st1) as [[sets|e] st2]; [|done].
  rewrite bind_unfold. destruct (Fs.mkdir DATA_DIR st2) as [[[]|e] st3]; [|done].
  rewrite bind_unfold. destruct (write_updated_files self sets st3) as [[[]|e] st4]; [|done].
  rewrite bind_unfold. destruct (sync_to_wwwroot self st4) as [[[]|e] st5]; [|done].
  destruct (run_body_tail start st5) as (st6 & -> & _). by intros [= <- _].
Qed.

(** C6: the process exits with status 0 whenever the body of [run]
    returns, changed files or not, and with status 1 whenever an exception
    leaves that body; the exception is then logged as an error and its
    traceback printed, and the process does not die of it. *)
Theorem exit_status (verbose_flag dry_run_flag : bool) (st : state) :
  let self := {| verbose := verbose_flag; dry_run := dry_run_flag |} in
  match run_body net strftime self (clock st)
          (emit (Log INFO "=== Starting Word List Update ===" [])
             (set_changes_made false st)) with
  | (Ok status, st') =>
      status = 0%Z ∧
      main net strftime verbose_flag dry_run_flag st = (Exit 0, st')
  | (Raise e, st') =>
      main net strftime verbose_flag dry_run_flag st =
      (Exit 1, emit (Traceback e) (emit (Log ERROR "Error during update: {}" [AExn e]) st'))
  end.
Proof.
  cbv zeta. unfold main. rewrite run_run. cbn [clock set_changes_made].
  destruct (run_body _ _ _ _ _) as [[status|e] st'] eqn:Hbody; [|done].
  apply run_body_status in Hbody as ->. done.
Qed.

End TopLevel.

(** The three ways a run ends, on concrete worlds: nothing to change,
    something changed, and an exception (here [Data] is a file, so the
    backup directory cannot be made). *)
Example exit_status_cases :
  let unchanged := main no_network stamp false false (fresh ∅) in
  let changed := main no_network stamp false false (fresh beach_apple) in
  let failed := main no_network stamp false false (fresh data_is_a_file) in
  (unchanged.1 = Exit 0 ∧ changes_made unchanged.2 = false) ∧
  (changed.1 = Exit 0 ∧ changes_made changed.2 = true) ∧
  (failed.1 = Exit 1 ∧
   last (trace failed.2) = Some (Traceback (NotADirectoryError DATA_DIR))).
Proof. cbv zeta. repeat split; vm_compute; reflexivity. Qed.

(** C1: in dry-run mode on a machine without a [Data] directory, the run
    makes that directory: [run] calls [DATA_DIR.mkdir] whatever the mode. *)
Theorem rehearsal_makes_data_dir :
  let before := fresh ∅ in
  let after := (main no_network stamp false true before).2 in
  fs before !! DATA_DIR = None ∧
  fs after !! DATA_DIR = Some Dir ∧
  fs_events (trace after) = [MakeDir DATA_DIR].
Proof. cbv zeta. repeat split; vm_compute; reflexivity. Qed.

(** ** The claims about the written files *)


Lemma main_exit_0 net strftime verbose_flag dry_run_flag st st' :
  main net strftime verbose_flag dry_run_flag st = (Exit 0, st') →
  run_body net strftime {| verbose := verbose_flag; dry_run := dry_run_flag |} (clock st)
    (emit (Log INFO "=== Starting Word List Update ===" []) (set_changes_made false st))
  = (Ok 0%Z, st').
Proof.
  unfold main. rewrite run_run. cbn [clock set_changes_made].
  destruct (run_body _ _ _ _ _) as [[status|e] st1] eqn:Hbody.
  - apply run_body_status in Hbody as ->. by intros [= ->].
  - by intros [=].
Qed.

Lemma main_files net strftime verbose_flag dry_run_flag st :
  fs (main net strftime verbose_flag dry_run_flag st).2 =
  fs (run_body net strftime {| verbose := verbose_flag; dry_run := dry_run_flag |} (clock st)
        (emit (Log INFO "=== Starting Word List Update ===" [])
           (set_changes_made false st))).2.
Proof.
  unfold main. rewrite run_run. cbn [clock set_changes_made].
  by destruct (run_body _ _ _ _ _) as [[status|e] st1].
Qed.



Lemma no_network_stationary : stationary no_network.
Proof. by intros n url. Qed.








(** ** An empty past-answers file *)

Lemma lines_blank content : blank content → Text.lines content = [""].
Proof. intros Hblank. unfold Text.lines. by rewrite strip_blank. Qed.

Lemma file_content_empty_word : file_content {[""]} = "".
Proof. vm_compute. reflexivity. Qed.

(** C9, amended: when the remote paths yield nothing and
    [past-answers.txt] is empty or blank, [fetch_past_wordle_answers]
    returns the set that holds the empty string alone. The writer does not
    filter it: the text it computes for that set is empty, which is the
    stripped text of the file, so the file is reported unchanged and is
    not written. *)
Theorem blank_file_gives_empty_word
    (net : nat → string → outcome) (self : WordListUpdater) (st : state)
    (content : string) :
  remote_answers net (requests_sent st) = ∅ →
  fs st !! (DATA_DIR </> "past-answers.txt") = Some (File content) →
  blank content →
  (∃ st', fetch_past_wordle_answers net self st = (Ok {[""]}, st')) ∧
  file_content {[""]} = "" ∧
  (∀ updater description st2,
     fs st2 !! (DATA_DIR </> "past-answers.txt") = Some (File content) →
     ∃ st2',
       write_word_file updater (DATA_DIR </> "past-answers.txt") {[""]} description st2
         = (Ok tt, st2') ∧
       fs st2' = fs st2 ∧ changes_made st2' = changes_made st2 ∧
       fs_events (since st2 st2') = []).
Proof.
  intros Hremote Hnode Hblank. split; [|split].
  - destruct (fetch_past_wordle_answers_run net self st) as (st' & Heq & _).
    exists st'. rewrite Heq, Hremote, Hnode.
    unfold past_answers_of, local_words, known_recent.
    rewrite bool_decide_eq_true_2 by done. rewrite lines_blank by done.
    assert ((list_to_set [""] ∪ ∅ : gset string) = {[""]}) as -> by set_solver.
    reflexivity.
  - apply file_content_empty_word.
  - intros updater description st2 Hnode2.
    rewrite write_word_file_same.
    + eexists. split; [done|]. repeat split. unfold since. simpl.
      by rewrite drop_app_length.
    + done.
    + by rewrite Hnode2.
    + rewrite Hnode2, file_content_empty_word. simpl. by rewrite strip_blank.
Qed.

Lemma blank_file_gives_empty_word_witness :
  ∃ st', fetch_past_wordle_answers no_network quiet (fresh blank_past) = (Ok {[""]}, st').
Proof.
  apply (blank_file_gives_empty_word no_network quiet (fresh blank_past) Text.nl).
  - vm_compute. reflexivity.
  - vm_compute. reflexivity.
  - reflexivity.
Defined.

(** C9, as stated, fails: after a run on a past-answers file that holds a
    single newline the file is as it was, and the only writes were the
    backup and the copy to the serving directory. *)
Lemma blank_file_is_not_rewritten :
  let after := (main no_network stamp false false (fresh blank_past)).2 in
  fs after !! (DATA_DIR </> "past-answers.txt") = Some (File Text.nl) ∧
  fs_events (trace after) =
    [MakeDir BACKUP_DIR;
     WriteFile (BACKUP_DIR </> "past-answers_20240101_120000.txt") Text.nl;
     MakeDir ["wwwroot"]; MakeDir WWWROOT_DATA_DIR;
     WriteFile (WWWROOT_DATA_DIR </> "past-answers.txt") Text.nl].
Proof. cbv zeta. split; vm_compute; reflexivity. Qed.

(** ** The text [write_word_file] writes, and its change test *)

Lemma join_snoc sep ws w :
  ws ≠ [] → Text.join sep (ws ++ [w]) = Text.join sep ws +:+ sep +:+ w.
Proof.
  induction ws as [|w1 ws IH]; [done|]. intros _.
  destruct ws as [|w2 ws]; [done|].
  change ((w1 :: w2 :: ws) ++ [w]) with (w1 :: (w2 :: ws) ++ [w]).
  change ((w2 :: ws) ++ [w]) with (w2 :: ws ++ [w]) at 1.
  rewrite join_cons_cons.
  change (w2 :: ws ++ [w]) with ((w2 :: ws) ++ [w]).
  rewrite IH by done. rewrite join_cons_cons. by rewrite !append_assoc.
Qed.

Lemma write_word_file_differs self filepath words description st :
  filepath ≠ [] →
  fs st !! filepath ≠ Some Dir →
  file_content words ≠ Text.strip (existing_text (fs st !! filepath)) →
  changes_made (write_word_file self filepath words description st).2 = true.
Proof.
  intros Hp Hdir Hdiff.
  destruct (dry_run self) eqn:Hdry.
  { destruct (write_word_file_rehearsed self filepath words description st)
      as (st' & -> & _ & Hch & _); done. }
  destruct (Fs.node_at (fs st) (Fs.parent filepath)) as [[content'|]|] eqn:Hparent.
  2: { by rewrite write_word_file_written. }
  all: unfold write_word_file, file_content in *;
    rewrite bind_unfold, exists_run, node_at_nonempty by done;
    destruct (fs st !! filepath) as [[content|]|] eqn:Hnode; [|done|].
  all: try (rewrite bool_decide_eq_true_2 by eauto;
            rewrite bind_unfold, read_text_run, node_at_nonempty, Hnode by done).
  all: try (rewrite bool_decide_eq_false_2 by (by intros [? ?]);
            rewrite bind_unfold; cbn [ret]).
  all: simpl in Hdiff; rewrite bool_decide_eq_true_2 by done;
    rewrite bind_unfold; cbn [modify]; rewrite Hdry, bind_unfold, write_text_run;
    cbn [fs set_changes_made]; by rewrite node_at_nonempty, Hnode, Hparent by done.
Qed.

(** C10, amended: the text is the sorted words joined by single newlines,
    with nothing after the last word, and it is compared with the stripped
    text of the file; so, when the computed text itself starts and ends
    with no blank, a file that differs from it only by blanks around it is
    reported unchanged and is not written. *)
Theorem write_word_file_compares_stripped
    (self : WordListUpdater) (filepath : path) (words : gset string)
    (description : string) (st : state) :
  filepath ≠ [] →
  fs st !! filepath ≠ Some Dir →
  let content := file_content words in
  let existing := existing_text (fs st !! filepath) in
  let unchanged :=
    (Ok tt, emit (Log INFO "✓ No changes for {}" [AStr (default "" (last filepath))]) st) in
  content = Text.join Text.nl (Text.sorted words) ∧
  Sorted String.le (Text.sorted words) ∧
  Text.sorted words ≡ₚ elements words ∧
  (∀ ws w, Text.sorted words = ws ++ [w] →
     content = match ws with [] => w | _ => Text.join Text.nl ws +:+ Text.nl +:+ w end) ∧
  (content = Text.strip existing →
     write_word_file self filepath words description st = unchanged) ∧
  (content ≠ Text.strip existing →
     changes_made (write_word_file self filepath words description st).2 = true) ∧
  (Text.strip content = content →
   ∀ pre post, blank pre → blank post → existing = pre +:+ content +:+ post →
     write_word_file self filepath words description st = unchanged).
Proof.
  intros Hp Hdir. cbv zeta.
  split; [done|]. split; [apply sorted_Sorted|]. split; [apply sorted_Permutation|].
  split; [|split; [|split]].
  - intros ws w Hsorted. unfold file_content. rewrite Hsorted.
    destruct ws as [|w1 ws]; [done|]. by apply join_snoc.
  - intros Hsame. by apply write_word_file_same.
  - intros Hdiff. by apply write_word_file_differs.
  - intros Hstrip pre post Hpre Hpost Hexisting.
    apply write_word_file_same; [done..|].
    rewrite Hexisting. by rewrite strip_surrounded.
Qed.

Lemma write_word_file_compares_stripped_witness :
  write_word_file quiet (DATA_DIR </> "past-answers.txt") {["apple"; "beach"]}
    "past Wordle answers" (fresh apple_beach)
  = (Ok tt, emit (Log INFO "✓ No changes for {}" [AStr "past-answers.txt"])
              (fresh apple_beach)).
Proof.
  assert (DATA_DIR </> "past-answers.txt" ≠ []) as Hp by discriminate.
  assert (fs (fresh apple_beach) !! (DATA_DIR </> "past-answers.txt") ≠ Some Dir) as Hdir
    by (vm_compute; discriminate).
  destruct (write_word_file_compares_stripped quiet (DATA_DIR </> "past-answers.txt")
              {["apple"; "beach"]} "past Wordle answers" (fresh apple_beach) Hp Hdir)
    as (_ & _ & _ & _ & _ & _ & Hsurrounded).
  apply (Hsurrounded ltac:(vm_compute; reflexivity) "" Text.nl);
    [reflexivity|reflexivity|vm_compute; reflexivity].
Defined.

(** C10, as stated, fails: for the words [""] and ["apple"] the computed
    text starts with a newline; a file that is this text and one more
    newline is reported changed and written again. *)
Lemma surrounding_blank_is_rewritten :
  let words : gset string := {[""; "apple"]} in
  let target := DATA_DIR </> "words.txt" in
  let before := fresh blank_line_words in
  let after := (write_word_file quiet target words "total words" before).2 in
  existing_text (fs before !! target) = file_content words +:+ Text.nl ∧
  changes_made after = true ∧
  fs_events (trace after) = [WriteFile target (Text.nl +:+ "apple")].
Proof. cbv zeta. repeat split; vm_compute; reflexivity. Qed.

(** ** Invariants of a run *)

Section Respects.

Variable R : relation state.
Context `{!PreOrder R}.
Hypothesis R_emit : ∀ e st, R st (emit e st).
Hypothesis R_clock : ∀ f st, R st (set_clock f st).
Hypothesis R_requests_sent : ∀ f st, R st (set_requests_sent f st).

Lemma respects_ret {A} (a : A) : respects R (mret a : M A).
Proof using PreOrder0. intros st. reflexivity. Qed.

Lemma respects_raise {A} e : respects R (raise e : M A).
Proof using PreOrder0. intros st. reflexivity. Qed.

Lemma respects_lift {A} (r : result A) : respects R (lift r).
Proof using PreOrder0. intros st. reflexivity. Qed.

Lemma respects_get {A} (f : state → A) : respects R (get f).
Proof using PreOrder0. intros st. reflexivity. Qed.

Lemma respects_bind {A B} (c : M A) (k : A → M B) :
  respects R c → (∀ a, respects R (k a)) → respects R (c ≫= k).
Proof using PreOrder0.
  intros Hc Hk st. rewrite bind_unfold. specialize (Hc st).
  destruct (c st) as [[a|e] st1]; [|done].
  etrans; [exact Hc|apply Hk].
Qed.

Lemma respects_try_except {A} (c : M A) catches (h : exn → M A) :
  respects R c → (∀ e, respects R (h e)) → respects R (try_except c catches h).
Proof using PreOrder0.
  intros Hc Hh st. unfold try_except. specialize (Hc st).
  destruct (c st) as [[a|e] st1]; [done|].
  destruct (catches e); [|done]. etrans; [exact Hc|apply Hh].
Qed.

Lemma respects_for_each {A} (xs : list A) body :
  (∀ x, respects R (body x)) → respects R (for_each xs body).
Proof using PreOrder0.
  intros Hbody. induction xs as [|x xs IH]; simpl; [apply respects_ret|].
  by apply respects_bind.
Qed.

Lemma respects_log message args lvl : respects R (log message args lvl).
Proof using R_emit. intros st. apply R_emit. Qed.

Lemma respects_verbose_log self message args : respects R (verbose_log self message args).
Proof using PreOrder0 R_emit.
  unfold verbose_log. destruct (verbose self); [apply respects_log|apply respects_ret].
Qed.

Lemma respects_exists p : respects R (Fs.exists_ p).
Proof using PreOrder0. apply respects_get. Qed.

Lemma respects_read_text p : respects R (Fs.read_text p).
Proof using PreOrder0.
  unfold Fs.read_text. apply respects_bind; [apply respects_get|].
  intros [[]|]; (apply respects_ret || apply respects_raise).
Qed.

Lemma respects_sleep secs : respects R (sleep secs).
Proof using PreOrder0 R_emit R_clock.
  unfold sleep. apply respects_bind; [intros st; apply R_clock|].
  intros _ st. apply R_emit.
Qed.

Lemma respects_requests_get net url : respects R (requests_get net url).
Proof using PreOrder0 R_emit R_requests_sent.
  unfold requests_get. apply respects_bind; [apply respects_get|]. intros n.
  apply respects_bind; [intros st; apply R_requests_sent|]. intros _.
  apply respects_bind; [intros st; apply R_emit|]. intros _.
  destruct (net n url); [apply respects_ret|apply respects_raise].
Qed.

Lemma respects_fetch_url net self url : respects R (fetch_url net self url).
Proof using PreOrder0 R_emit R_clock R_requests_sent.
  unfold fetch_url. generalize (seq 0 3). intros attempts.
  induction attempts as [|attempt attempts IH]; simpl; [apply respects_ret|].
  apply respects_try_except.
  - apply respects_bind; [apply respects_verbose_log|]. intros _.
    apply respects_bind; [apply respects_requests_get|]. intros response.
    apply respects_bind; [|intros _; apply respects_ret].
    unfold raise_for_status. destruct (_ && _); [apply respects_raise|apply respects_ret].
  - intros e. apply respects_bind; [apply respects_log|]. intros _.
    destruct (attempt <? 2); [|apply respects_raise].
    apply respects_bind; [apply respects_sleep|done].
Qed.

Lemma respects_answers_from_json net self : respects R (answers_from_json net self).
Proof using PreOrder0 R_emit R_clock R_requests_sent.
  unfold answers_from_json. apply respects_try_except.
  2: { intros e. apply respects_bind; [apply respects_log|intros _; apply respects_ret]. }
  apply respects_bind; [apply respects_fetch_url|]. intros response.
  apply respects_bind.
  { unfold response_json. destruct response as [r|]; [|apply respects_raise].
    destruct (json_body r); [apply respects_ret|apply respects_raise]. }
  intros data. apply respects_bind; [apply respects_lift|]. intros [|]; [|apply respects_ret].
  apply respects_bind; [apply respects_lift|]. intros solutions.
  apply respects_bind; [apply respects_lift|]. intros ws.
  destruct (Json.update_lowered ∅ ws) as [past [e|]];
    (apply respects_bind; [apply respects_log|intros _; apply respects_ret]).
Qed.

Lemma respects_fetch_past_wordle_answers net self :
  respects R (fetch_past_wordle_answers net self).
Proof using PreOrder0 R_emit R_clock R_requests_sent.
  unfold fetch_past_wordle_answers.
  apply respects_bind; [apply respects_log|]. intros _.
  apply respects_bind; [apply respects_answers_from_json|]. intros past.
  apply respects_bind.
  { destruct (bool_decide _); [apply respects_log|apply respects_ret]. }
  intros _. destruct (bool_decide _); [|apply respects_ret].
  apply respects_bind; [apply respects_log|]. intros _.
  apply respects_bind; [apply respects_exists|]. intros [|]; [|apply respects_ret].
  apply respects_bind; [apply respects_read_text|]. intros content.
  apply respects_bind; [apply respects_log|intros _; apply respects_ret].
Qed.

Lemma respects_fetch_comprehensive_wordlist net self :
  respects R (fetch_comprehensive_wordlist net self).
Proof using PreOrder0 R_emit R_clock R_requests_sent.
  unfold fetch_comprehensive_wordlist.
  apply respects_bind; [apply respects_log|]. intros _.
  apply respects_bind; [apply respects_exists|]. intros there.
  apply respects_bind.
  { destruct there; [|apply respects_ret].
    apply respects_bind; [apply respects_read_text|]. intros content.
    apply respects_bind; [apply respects_log|intros _; apply respects_ret]. }
  intros all_words. apply respects_try_except.
  2: { intros e. apply respects_bind; [apply respects_log|intros _; apply respects_ret]. }
  apply respects_bind; [apply respects_fetch_url|]. intros response.
  apply respects_bind.
  { unfold response_text. destruct response; [apply respects_ret|apply respects_raise]. }
  intros body. apply respects_bind; [|intros _; apply respects_ret].
  destruct (_ <? _); [apply respects_log|apply respects_ret].
Qed.

Lemma respects_determine_common_words all_words past_answers :
  respects R (determine_common_words all_words past_answers).
Proof using PreOrder0 R_emit.
  unfold determine_common_words.
  apply respects_bind; [apply respects_log|]. intros _.
  apply respects_bind; [apply respects_exists|]. intros there.
  apply respects_bind.
  { destruct there; [|apply respects_ret].
    apply respects_bind; [apply respects_read_text|intros content; apply respects_ret]. }
  intros common. apply respects_bind; [apply respects_log|intros _; apply respects_ret].
Qed.

Lemma respects_fetch_data net self : respects R (fetch_data net self).
Proof using PreOrder0 R_emit R_clock R_requests_sent.
  unfold fetch_data.
  apply respects_bind; [apply respects_fetch_past_wordle_answers|]. intros past.
  apply respects_bind; [apply respects_fetch_comprehensive_wordlist|]. intros all.
  apply respects_bind; [apply respects_determine_common_words|intros c; apply respects_ret].
Qed.

(** *** The calls that change files *)

Hypothesis R_changes_made : ∀ b st, R st (set_changes_made b st).
Hypothesis R_write : ∀ p content st,
  Fs.node_at (fs st) p ≠ Some Dir →
  R st (set_fs (insert p (File content)) st).
Hypothesis R_mkdir : ∀ q st,
  Fs.node_at (fs st) q = None → R st (set_fs (insert q Dir) st).

Lemma respects_write_text p content : respects R (Fs.write_text p content).
Proof using PreOrder0 R_emit R_write.
  intros st. rewrite write_text_run.
  destruct (Fs.node_at (fs st) p) as [[]|] eqn:Hp,
           (Fs.node_at (fs st) (Fs.parent p)) as [[]|]; simpl; try reflexivity.
  all: etrans; [apply (R_write p content); by rewrite Hp|apply R_emit].
Qed.

Lemma respects_mkdir_from above below : respects R (Fs.mkdir_from above below).
Proof using PreOrder0 R_emit R_mkdir.
  revert above. induction below as [|c below IH]; intros above; simpl.
  { apply respects_ret. }
  intros st. rewrite bind_unfold. cbn [get].
  destruct (Fs.node_at (fs st) (above ++ [c])) as [[]|] eqn:Hq.
  - reflexivity.
  - apply IH.
  - rewrite bind_unfold. cbn [modify]. rewrite bind_unfold. cbn [modify].
    etrans; [apply (R_mkdir (above ++ [c])); exact Hq|].
    etrans; [apply R_emit|apply IH].
Qed.

Lemma respects_backup_files strftime self : respects R (backup_files strftime self).
Proof using PreOrder0 R_emit R_write R_mkdir.
  unfold backup_files. destruct (dry_run self); [apply respects_log|].
  apply respects_bind; [apply respects_mkdir_from|]. intros _.
  apply respects_bind; [apply respects_get|]. intros timestamp.
  apply respects_for_each. intros filename.
  apply respects_bind; [apply respects_exists|]. intros [|]; [|apply respects_ret].
  apply respects_bind; [apply respects_read_text|]. intros content.
  apply respects_bind; [apply respects_write_text|intros _; apply respects_verbose_log].
Qed.

Lemma respects_sync_to_wwwroot self : respects R (sync_to_wwwroot self).
Proof using PreOrder0 R_emit R_write R_mkdir.
  unfold sync_to_wwwroot. destruct (dry_run self); [apply respects_log|].
  apply respects_bind; [apply respects_mkdir_from|]. intros _.
  apply respects_for_each. intros filename.
  apply respects_bind; [apply respects_exists|]. intros [|]; [|apply respects_ret].
  apply respects_bind; [apply respects_read_text|]. intros content.
  apply respects_bind; [apply respects_write_text|intros _; apply respects_verbose_log].
Qed.

Lemma respects_write_word_file self filepath words description :
  respects R (write_word_file self filepath words description).
Proof using PreOrder0 R_emit R_write R_changes_made.
  unfold write_word_file.
  apply respects_bind; [apply respects_exists|]. intros there.
  apply respects_bind.
  { destruct there; [apply respects_read_text|apply respects_ret]. }
  intros existing. destruct (bool_decide _); [|apply respects_log].
  apply respects_bind; [intros st; apply R_changes_made|]. intros _.
  destruct (dry_run self).
  - apply respects_bind; [apply respects_log|]. intros _.
    apply respects_bind; [apply respects_log|intros _; apply respects_log].
  - apply respects_bind; [apply respects_write_text|intros _; apply respects_log].
Qed.

Lemma respects_run_body net strftime self start :
  respects R (run_body net strftime self start).
Proof using All.
  unfold run_body.
  apply respects_bind; [apply respects_backup_files|]. intros _.
  apply respects_bind; [apply respects_fetch_data|]. intros [[past all] common].
  apply respects_bind; [apply respects_mkdir_from|]. intros _.
  apply respects_bind.
  { unfold write_updated_files.
    apply respects_bind; [apply respects_write_word_file|]. intros _.
    apply respects_bind; [apply respects_write_word_file|]. intros _.
    apply respects_write_word_file. }
  intros _. apply respects_bind; [apply respects_sync_to_wwwroot|]. intros _.
  apply respects_bind; [apply respects_get|]. intros now.
  apply respects_bind; [apply respects_log|]. intros _.
  apply respects_bind; [apply respects_get|]. intros [|];
    (apply respects_bind; [apply respects_log|intros _; apply respects_ret]).
Qed.

Lemma respects_run net strftime self : respects R (run net strftime self).
Proof using All.
  unfold run.
  apply respects_bind; [apply respects_log|]. intros _.
  apply respects_bind; [apply respects_get|]. intros start.
  apply respects_try_except; [apply respects_run_body|]. intros e.
  apply respects_bind; [apply respects_log|]. intros _.
  apply respects_bind; [intros st; apply R_emit|intros _; apply respects_ret].
Qed.

End Respects.

(** *** Nothing is deleted, nothing changes its kind *)

Global Instance keeps_kinds_preorder : PreOrder keeps_kinds.
Proof.
  split.
  - intros st p. split; [done|]. intros content Hp. by exists content.
  - intros st1 st2 st3 H12 H23 p. destruct (H12 p) as [Hd12 Hf12], (H23 p) as [Hd23 Hf23].
    split; [auto|]. intros content Hp. destruct (Hf12 content Hp) as [content' Hp'].
    by apply (Hf23 content').
Qed.

Lemma keeps_kinds_same_fs st st' : fs st' = fs st → keeps_kinds st st'.
Proof. intros Hfs p. rewrite Hfs. split; [done|]. intros content Hp. by exists content. Qed.

Lemma keeps_kinds_insert_file p content st :
  Fs.node_at (fs st) p ≠ Some Dir →
  keeps_kinds st (set_fs (insert p (File content)) st).
Proof.
  intros Hp q. cbn [fs set_fs]. destruct (decide (p = q)) as [<-|Hne].
  - rewrite lookup_insert_eq. split.
    + intros Hdir. destruct p; [done|]. by rewrite <- Hdir in Hp.
    + intros ? _. by eexists.
  - rewrite lookup_insert_ne by done. split; [done|]. intros ? ?. by eexists.
Qed.

Lemma keeps_kinds_insert_dir q st :
  Fs.node_at (fs st) q = None → keeps_kinds st (set_fs (insert q Dir) st).
Proof.
  intros Hq p. cbn [fs set_fs]. destruct (decide (q = p)) as [<-|Hne].
  - destruct q; [done|]. simpl in Hq. rewrite lookup_insert_eq, Hq. by split.
  - rewrite lookup_insert_ne by done. split; [done|]. intros ? ?. by eexists.
Qed.

(** X1: a run deletes nothing and changes the kind of nothing: what was a
    directory before is a directory after, what was a file is a file. *)
Theorem run_keeps_kinds
    (net : nat → string → outcome) (strftime : nat → string)
    (self : WordListUpdater) (st : state) :
  keeps_kinds st (run net strftime self st).2.
Proof.
  apply (respects_run keeps_kinds).
  - intros e st0. by apply keeps_kinds_same_fs.
  - intros f st0. by apply keeps_kinds_same_fs.
  - intros f st0. by apply keeps_kinds_same_fs.
  - intros b st0. by apply keeps_kinds_same_fs.
  - intros p content st0. apply keeps_kinds_insert_file.
  - intros q st0. apply keeps_kinds_insert_dir.
Qed.

(** *** Dry-run mode *)

Global Instance at_most_data_dir_preorder : PreOrder at_most_data_dir.
Proof.
  split.
  - intros st. by left.
  - intros st1 st2 st3 [H12|[Hnone H12]] [H23|[Hnone' H23]].
    + left. congruence.
    + right. rewrite H12 in Hnone', H23. done.
    + right. split; [done|congruence].
    + rewrite H12, lookup_insert_eq in Hnone'. done.
Qed.

Lemma mkdir_data_dir_at_most : respects at_most_data_dir (Fs.mkdir DATA_DIR).
Proof.
  intros st. unfold Fs.mkdir, DATA_DIR. simpl. rewrite bind_unfold. cbn [get].
  destruct (fs st !! ["Data"]) as [[]|] eqn:Hdata; simpl; [by left|by left|].
  right. done.
Qed.

Section DryRun.

Variable net : nat → string → outcome.
Variable strftime : nat → string.
Variable self : WordListUpdater.
Hypothesis Hdry : dry_run self = true.

Lemma write_word_file_dry filepath words description :
  respects at_most_data_dir (write_word_file self filepath words description).
Proof using Hdry.
  unfold write_word_file.
  apply respects_bind; [apply _|apply respects_exists; apply _|]. intros there.
  apply respects_bind; [apply _| |].
  { destruct there; [apply respects_read_text|apply respects_ret]; apply _. }
  intros existing. destruct (bool_decide _); [|apply respects_log; by left].
  apply respects_bind; [apply _|intros st; by left|]. intros _. rewrite Hdry.
  apply respects_bind; [apply _|apply respects_log; by left|]. intros _.
  apply respects_bind; [apply _|apply respects_log; by left|].
  intros _. apply respects_log. by left.
Qed.

Lemma run_body_dry start : respects at_most_data_dir (run_body net strftime self start).
Proof using Hdry.
  unfold run_body, backup_files, sync_to_wwwroot. rewrite Hdry.
  apply respects_bind; [apply _|apply respects_log; by left|]. intros _.
  apply respects_bind; [apply _|apply respects_fetch_data; (apply _ || by left)|].
  intros [[past all] common].
  apply respects_bind; [apply _|apply mkdir_data_dir_at_most|]. intros _.
  apply respects_bind; [apply _| |].
  { unfold write_updated_files.
    apply respects_bind; [apply _|apply write_word_file_dry|]. intros _.
    apply respects_bind; [apply _|apply write_word_file_dry|]. intros _.
    apply write_word_file_dry. }
  intros _. apply respects_bind; [apply _|apply respects_log; by left|]. intros _.
  apply respects_bind; [apply _|apply respects_get; apply _|]. intros now.
  apply respects_bind; [apply _|apply respects_log; by left|]. intros _.
  apply respects_bind; [apply _|apply respects_get; apply _|]. intros [|];
    (apply respects_bind; [apply _|apply respects_log; by left|
                           intros _; apply respects_ret; apply _]).
Qed.

End DryRun.

(** X2: in dry-run mode a run writes no file, makes no backup and syncs
    nothing: the file system is as before, except that the directory
    [Data] is made when it was missing. *)
Theorem dry_run_writes_nothing
    (net : nat → string → outcome) (strftime : nat → string)
    (verbose_flag : bool) (st : state) :
  at_most_data_dir st (main net strftime verbose_flag true st).2.
Proof.
  assert (fs (main net strftime verbose_flag true st).2 =
          fs (run_body net strftime {| verbose := verbose_flag; dry_run := true |} (clock st)
                (emit (Log INFO "=== Starting Word List Update ===" [])
                   (set_changes_made false st))).2) as Hfs by apply main_files.
  pose proof (run_body_dry net strftime {| verbose := verbose_flag; dry_run := true |}
                eq_refl (clock st)
                (emit (Log INFO "=== Starting Word List Update ===" [])
                   (set_changes_made false st))) as Hrun.
  unfold at_most_data_dir in *. rewrite Hfs. exact Hrun.
Qed.

(** ** Directory creation *)

Lemma made_longer above below q : q ∈ made above below → length above < length q.
Proof.
  revert above. induction below as [|c below IH]; intros above; simpl.
  { by intros ?%elem_of_nil. }
  intros [->|Hq%IH]%elem_of_cons.
  - rewrite length_app. simpl. lia.
  - rewrite length_app in Hq. simpl in Hq. lia.
Qed.

Lemma made_not_nil above below q : q ∈ made above below → q ≠ [].
Proof. intros Hq%made_longer ->. simpl in Hq. lia. Qed.

(** When [mkdir_from] returns, every directory on the way is there, and
    nothing else has changed. *)
Lemma mkdir_from_ok above below st st' :
  Fs.mkdir_from above below st = (Ok tt, st') →
  (∀ q, q ∈ made above below → fs st' !! q = Some Dir) ∧
  (∀ q, q ∉ made above below → fs st' !! q = fs st !! q) ∧
  clock st' = clock st ∧ changes_made st' = changes_made st.
Proof.
  revert above st. induction below as [|c below IH]; intros above st; simpl.
  { intros [= <-]. split; [by intros q ?%elem_of_nil|done]. }
  rewrite bind_unfold. cbn [get].
  assert (above ++ [c] ∉ made (above ++ [c]) below) as Hfresh.
  { intros Hin%made_longer. lia. }
  assert (Fs.node_at (fs st) (above ++ [c]) = fs st !! (above ++ [c])) as ->.
  { by destruct above. }
  destruct (fs st !! (above ++ [c])) as [[]|] eqn:Hq; [done| |].
  - intros (Hmade & Hother & Hclock & Hch)%IH. split; [|split; [|done]].
    + intros q [->|Hin]%elem_of_cons; [|by apply Hmade]. by rewrite Hother.
    + intros q Hnot. apply Hother. intros Hin. apply Hnot. by right.
  - rewrite bind_unfold. cbn [modify]. rewrite bind_unfold. cbn [modify].
    intros (Hmade & Hother & Hclock & Hch)%IH. cbn [fs emit set_fs clock changes_made] in *.
    split; [|split; [|done]].
    + intros q [->|Hin]%elem_of_cons; [|by apply Hmade].
      by rewrite Hother, lookup_insert_eq.
    + intros q Hnot. rewrite Hother.
      * apply lookup_insert_ne. intros <-. apply Hnot. by left.
      * intros Hin. apply Hnot. by right.
Qed.

(** ** Copying the data files: backups and sync *)

Section CopyLoop.

Variable dest_of : string → path.
Variable note : string → M unit.
Hypothesis dest_not_nil : ∀ filename, dest_of filename ≠ [].
Hypothesis dest_not_source : ∀ filename other, dest_of filename ≠ DATA_DIR </> other.
Hypothesis note_quiet : ∀ filename st, ∃ st',
  note filename st = (Ok tt, st') ∧ fs st' = fs st.

Local Abbreviation copy_one := (copy_one dest_of note).

Lemma copy_one_ok filename st st' :
  copy_one filename st = (Ok tt, st') →
  (∀ content, fs st !! (DATA_DIR </> filename) = Some (File content) →
              fs st' = <[dest_of filename := File content]> (fs st)) ∧
  (fs st !! (DATA_DIR </> filename) = None → fs st' = fs st).
Proof using note_quiet dest_not_nil.
  unfold copy_one. rewrite bind_unfold, exists_run, node_at_joinpath.
  destruct (fs st !! (DATA_DIR </> filename)) as [[content|]|] eqn:Hsource.
  - rewrite bool_decide_eq_true_2 by eauto.
    rewrite bind_unfold, read_text_run, node_at_joinpath, Hsource.
    rewrite bind_unfold, write_text_run.
    destruct (Fs.node_at (fs st) (dest_of filename)) as [[]|],
             (Fs.node_at (fs st) (Fs.parent (dest_of filename))) as [[]|]; try done.
    all: destruct (note_quiet filename
                     (emit (WriteFile (dest_of filename) content)
                        (set_fs (insert (dest_of filename) (File content)) st)))
           as (st1 & -> & Hfs); intros [= <-];
      (split; [|done]); intros ? [= <-]; exact Hfs.
  - rewrite bool_decide_eq_true_2 by eauto.
    by rewrite bind_unfold, read_text_run, node_at_joinpath, Hsource.
  - rewrite bool_decide_eq_false_2 by (by intros [? ?]).
    intros [= <-]. done.
Qed.

Lemma copy_one_frame filename st q :
  q ≠ dest_of filename → fs (copy_one filename st).2 !! q = fs st !! q.
Proof using note_quiet.
  intros Hq. unfold copy_one. rewrite bind_unfold, exists_run.
  destruct (bool_decide _); [|done].
  rewrite bind_unfold, read_text_run.
  destruct (Fs.node_at (fs st) (DATA_DIR </> filename)) as [[content|]|]; [|done..].
  rewrite bind_unfold, write_text_run.
  destruct (Fs.node_at (fs st) (dest_of filename)) as [[]|],
           (Fs.node_at (fs st) (Fs.parent (dest_of filename))) as [[]|]; try done.
  all: destruct (note_quiet filename
                   (emit (WriteFile (dest_of filename) content)
                      (set_fs (insert (dest_of filename) (File content)) st)))
         as (st1 & -> & Hfs); cbn [snd]; rewrite Hfs; cbn [fs emit set_fs];
    by apply lookup_insert_ne.
Qed.

Lemma copy_loop_frame filenames st q :
  q ∉ (dest_of <$> filenames) →
  fs (for_each filenames copy_one st).2 !! q = fs st !! q.
Proof using note_quiet.
  revert st. induction filenames as [|filename filenames IH]; intros st Hq; [done|].
  simpl. rewrite bind_unfold.
  assert (q ≠ dest_of filename) as Hne by (intros ->; apply Hq; simpl; left).
  pose proof (copy_one_frame filename st q Hne) as Hone.
  destruct (copy_one filename st) as [[[]|e] st1]; [|done].
  rewrite IH; [done|]. intros Hin. apply Hq. simpl. by right.
Qed.

(** When the loop returns, every data file that exists has been copied,
    and the destination of a data file that does not exist is as it was. *)
Lemma copy_loop_ok filenames st st' :
  NoDup (dest_of <$> filenames) →
  for_each filenames copy_one st = (Ok tt, st') →
  (∀ filename content, filename ∈ filenames →
     fs st !! (DATA_DIR </> filename) = Some (File content) →
     fs st' !! dest_of filename = Some (File content)) ∧
  (∀ filename, filename ∈ filenames →
     fs st !! (DATA_DIR </> filename) = None →
     fs st' !! dest_of filename = fs st !! dest_of filename).
Proof using All.
  revert st. induction filenames as [|filename filenames IH]; intros st Hnodup.
  { intros _. split; [intros ? ? Hin|intros ? Hin]; by apply elem_of_nil in Hin. }
  simpl in Hnodup. apply NoDup_cons in Hnodup as [Hfresh Hnodup].
  simpl. rewrite bind_unfold.
  destruct (copy_one filename st) as [[[]|e] st1] eqn:Hone; [|done].
  intros Hrest.
  pose proof (copy_loop_frame filenames st1 (dest_of filename) Hfresh) as Hkept.
  rewrite Hrest in Hkept. cbn [snd] in Hkept.
  destruct (copy_one_ok filename st st1 Hone) as [Hcopied Hskipped].
  destruct (IH st1 Hnodup Hrest) as [IHcopied IHskipped].
  assert (∀ q, q ≠ dest_of filename → fs st1 !! q = fs st !! q) as Hframe.
  { intros q Hq. pose proof (copy_one_frame filename st q Hq) as Hf.
    by rewrite Hone in Hf. }
  split.
  - intros other content [->|Hin]%elem_of_cons Hsource.
    + rewrite Hkept, (Hcopied content Hsource). apply lookup_insert_eq.
    + apply IHcopied; [done|]. rewrite Hframe; [done|]. intros Heq.
      by apply (dest_not_source filename other).
  - intros other [->|Hin]%elem_of_cons Hsource.
    + by rewrite Hkept, (Hskipped Hsource).
    + rewrite IHskipped; [| done |].
      * apply Hframe. intros Heq. apply Hfresh. rewrite <- Heq.
        by apply list_elem_of_fmap_2.
      * rewrite Hframe; [done|]. intros Heq. by apply (dest_not_source filename other).
Qed.

End CopyLoop.

(** *** Backups *)

Lemma words_in_data_files : "words.txt" ∈ DATA_FILES.
Proof. unfold DATA_FILES. set_solver. Qed.

Lemma common_words_in_data_files : "common-words.txt" ∈ DATA_FILES.
Proof. unfold DATA_FILES. set_solver. Qed.

Lemma past_answers_in_data_files : "past-answers.txt" ∈ DATA_FILES.
Proof. unfold DATA_FILES. set_solver. Qed.

Lemma verbose_log_quiet self message args st :
  ∃ st', verbose_log self message args st = (Ok tt, st') ∧ fs st' = fs st.
Proof. unfold verbose_log. destruct (verbose self); by eexists. Qed.

Lemma backup_names_distinct timestamp :
  NoDup ((λ filename, BACKUP_DIR </> backup_name filename timestamp) <$> DATA_FILES).
Proof.
  unfold DATA_FILES, backup_name. simpl.
  repeat (apply NoDup_cons; split); try apply NoDup_nil_2;
    rewrite ?elem_of_cons, ?elem_of_nil; unfold joinpath, BACKUP_DIR; simpl;
    intros H; intuition discriminate.
Qed.

(** What [backup_files] does outside dry-run mode, as a copy loop. *)
Lemma backup_files_unfold strftime self st :
  dry_run self = false →
  backup_files strftime self st =
  (Fs.mkdir BACKUP_DIR;;
   timestamp ← get (λ st, strftime (clock st));
   for_each DATA_FILES
     (copy_one (λ filename, BACKUP_DIR </> backup_name filename timestamp)
        (λ filename, verbose_log self "Backed up {} to {}"
           [AStr filename; APath (BACKUP_DIR </> backup_name filename timestamp)]))) st.
Proof. intros Hdry. unfold backup_files. by rewrite Hdry. Qed.

(** What [backup_files] does to the files when it returns. *)
Lemma backup_files_effect
    (strftime : nat → string) (self : WordListUpdater) (st st' : state) :
  dry_run self = false →
  backup_files strftime self st = (Ok tt, st') →
  let backup_of filename := BACKUP_DIR </> backup_name filename (strftime (clock st)) in
  fs st' !! BACKUP_DIR = Some Dir ∧
  (∀ filename content, filename ∈ DATA_FILES →
     fs st !! (DATA_DIR </> filename) = Some (File content) →
     fs st' !! backup_of filename = Some (File content)) ∧
  (∀ q, is_data_path q → fs st' !! q = fs st !! q) ∧
  (∀ q, q ∉ (backup_of <$> DATA_FILES) → q ∉ made [] BACKUP_DIR →
     fs st' !! q = fs st !! q).
Proof.
  intros Hdry. rewrite backup_files_unfold by done. rewrite bind_unfold.
  destruct (Fs.mkdir BACKUP_DIR st) as [[[]|e] st1] eqn:Hmkdir; [|done].
  apply mkdir_from_ok in Hmkdir as (Hmade & Hother & Hclock & _).
  rewrite bind_unfold. cbn [get]. rewrite Hclock. intros Hloop. cbv zeta.
  set (dest_of := λ filename, BACKUP_DIR </> backup_name filename (strftime (clock st))) in *.
  set (note := λ filename, verbose_log self "Backed up {} to {}"
                 [AStr filename;
                  APath (BACKUP_DIR </> backup_name filename (strftime (clock st)))]) in *.
  assert (∀ filename st0, ∃ st0', note filename st0 = (Ok tt, st0') ∧ fs st0' = fs st0)
    as Hnote by (intros; apply verbose_log_quiet).
  assert (∀ filename, dest_of filename ≠ []) as Hnil by done.
  assert (∀ filename other, dest_of filename ≠ DATA_DIR </> other) as Hsource by done.
  destruct (copy_loop_ok dest_of note Hnil Hsource Hnote DATA_FILES st1 st'
              (backup_names_distinct _) Hloop) as [Hcopied _].
  assert (∀ q, q ∉ (dest_of <$> DATA_FILES) → fs st' !! q = fs st1 !! q) as Hframe.
  { intros q Hq. pose proof (copy_loop_frame dest_of note Hnote DATA_FILES st1 q Hq) as Hf.
    by rewrite Hloop in Hf. }
  assert (∀ q, length q ≠ 3 → q ∉ (dest_of <$> DATA_FILES)) as Hlen.
  { intros q Hq (filename & -> & _)%list_elem_of_fmap. by apply Hq. }
  split; [|split; [|split]].
  - rewrite Hframe by (by apply Hlen). apply Hmade. simpl. set_solver.
  - intros filename content Hin Hsource'. apply Hcopied; [done|].
    rewrite Hother; [done|].
    assert (is_data_path (DATA_DIR </> filename)) as Hdp
      by (by apply list_elem_of_fmap_2).
    simpl. rewrite !elem_of_cons, elem_of_nil.
    apply data_path_not_dir in Hdp as [? _]. intros [Heq|[Heq|[]]]; [|done].
    by apply (f_equal length) in Heq.
  - intros q Hq. pose proof (data_path_length q Hq) as Hlen2.
    rewrite Hframe by (apply Hlen; lia). apply Hother.
    simpl. rewrite !elem_of_cons, elem_of_nil.
    apply data_path_not_dir in Hq as [? _]. intros [->|[->|[]]]; done.
  - intros q Hq Hnot. by rewrite Hframe, Hother.
Qed.

(** X3: outside dry-run mode, when [backup_files] returns: the backup
    directory exists, every data file that exists has a copy in it, named
    after the file and the time, with the text the file has; the data
    files themselves are untouched, and so is everything in the backup
    directory that is not one of these copies. *)
Theorem backup_files_copies
    (strftime : nat → string) (self : WordListUpdater) (st st' : state) :
  dry_run self = false →
  backup_files strftime self st = (Ok tt, st') →
  let backup_of filename := BACKUP_DIR </> backup_name filename (strftime (clock st)) in
  fs st' !! BACKUP_DIR = Some Dir ∧
  (∀ filename content, filename ∈ DATA_FILES →
     fs st !! (DATA_DIR </> filename) = Some (File content) →
     fs st' !! backup_of filename = Some (File content)) ∧
  (∀ q, is_data_path q → fs st' !! q = fs st !! q) ∧
  (∀ q, q ∉ (backup_of <$> DATA_FILES) → q ∉ made [] BACKUP_DIR →
     fs st' !! q = fs st !! q).
Proof.
  apply backup_files_effect.
Qed.

Lemma backup_files_copies_witness :
  ∃ st', backup_files stamp quiet (fresh apple_beach) = (Ok tt, st') ∧
         fs st' !! (BACKUP_DIR </> "past-answers_20240101_120000.txt")
           = Some (File ("apple" +:+ Text.nl +:+ "beach" +:+ Text.nl)).
Proof.
  destruct (backup_files stamp quiet (fresh apple_beach)) as [[[]|e] st'] eqn:Hrun;
    [|exfalso; revert Hrun; vm_compute; discriminate].
  exists st'. split; [reflexivity|].
  destruct (backup_files_copies stamp quiet (fresh apple_beach) st' eq_refl Hrun)
    as (_ & Hcopied & _).
  apply (Hcopied "past-answers.txt").
  - apply past_answers_in_data_files.
  - vm_compute. reflexivity.
Defined.

(** *** Sync *)

Lemma served_names_distinct :
  NoDup ((λ filename, WWWROOT_DATA_DIR </> filename) <$> DATA_FILES).
Proof.
  unfold DATA_FILES. simpl.
  repeat (apply NoDup_cons; split); try apply NoDup_nil_2;
    rewrite ?elem_of_cons, ?elem_of_nil; unfold joinpath, WWWROOT_DATA_DIR; simpl;
    intros H; intuition discriminate.
Qed.

Lemma sync_to_wwwroot_unfold self st :
  dry_run self = false →
  sync_to_wwwroot self st =
  (Fs.mkdir WWWROOT_DATA_DIR;;
   for_each DATA_FILES
     (copy_one (λ filename, WWWROOT_DATA_DIR </> filename)
        (λ filename, verbose_log self "Synced {} to wwwroot/data/" [AStr filename]))) st.
Proof. intros Hdry. unfold sync_to_wwwroot. by rewrite Hdry. Qed.

(** What [sync_to_wwwroot] does to the files when it returns. *)
Lemma sync_to_wwwroot_effect (self : WordListUpdater) (st st' : state) :
  dry_run self = false →
  sync_to_wwwroot self st = (Ok tt, st') →
  fs st' !! WWWROOT_DATA_DIR = Some Dir ∧
  (∀ filename content, filename ∈ DATA_FILES →
     fs st !! (DATA_DIR </> filename) = Some (File content) →
     fs st' !! (WWWROOT_DATA_DIR </> filename) = Some (File content)) ∧
  (∀ filename, filename ∈ DATA_FILES →
     fs st !! (DATA_DIR </> filename) = None →
     fs st' !! (WWWROOT_DATA_DIR </> filename) = fs st !! (WWWROOT_DATA_DIR </> filename)) ∧
  (∀ q, is_data_path q → fs st' !! q = fs st !! q) ∧
  (∀ q, q ∉ (joinpath WWWROOT_DATA_DIR <$> DATA_FILES) → q ∉ made [] WWWROOT_DATA_DIR →
     fs st' !! q = fs st !! q).
Proof.
  intros Hdry. rewrite sync_to_wwwroot_unfold by done. rewrite bind_unfold.
  destruct (Fs.mkdir WWWROOT_DATA_DIR st) as [[[]|e] st1] eqn:Hmkdir; [|done].
  apply mkdir_from_ok in Hmkdir as (Hmade & Hother & _ & _).
  intros Hloop.
  set (dest_of := λ filename, WWWROOT_DATA_DIR </> filename) in *.
  set (note := λ filename, verbose_log self "Synced {} to wwwroot/data/" [AStr filename])
    in *.
  assert (∀ filename st0, ∃ st0', note filename st0 = (Ok tt, st0') ∧ fs st0' = fs st0)
    as Hnote by (intros; apply verbose_log_quiet).
  assert (∀ filename, dest_of filename ≠ []) as Hnil by done.
  assert (∀ filename other, dest_of filename ≠ DATA_DIR </> other) as Hsource by done.
  destruct (copy_loop_ok dest_of note Hnil Hsource Hnote DATA_FILES st1 st'
              served_names_distinct Hloop) as [Hcopied Hskipped].
  assert (∀ q, q ∉ (dest_of <$> DATA_FILES) → fs st' !! q = fs st1 !! q) as Hframe.
  { intros q Hq. pose proof (copy_loop_frame dest_of note Hnote DATA_FILES st1 q Hq) as Hf.
    by rewrite Hloop in Hf. }
  assert (∀ q, length q ≠ 3 → q ∉ (dest_of <$> DATA_FILES)) as Hlen.
  { intros q Hq (filename & -> & _)%list_elem_of_fmap. by apply Hq. }
  assert (∀ q, length q = 3 → q ∉ made [] WWWROOT_DATA_DIR) as Hlen3.
  { intros q Hq. simpl. rewrite !elem_of_cons, elem_of_nil. intros [->|[->|[]]]; done. }
  assert (∀ q, is_data_path q → fs st1 !! q = fs st !! q) as Hdata.
  { intros q Hq. apply Hother. simpl. rewrite !elem_of_cons, elem_of_nil.
    pose proof (data_path_length q Hq). apply data_path_not_dir in Hq as [_ ?].
    intros [->|[->|[]]]; done. }
  split; [|split; [|split; [|split]]].
  - rewrite Hframe by (by apply Hlen). apply Hmade. simpl. set_solver.
  - intros filename content Hin Hsource'. apply Hcopied; [done|].
    rewrite Hdata; [done|]. by apply list_elem_of_fmap_2.
  - intros filename Hin Hsource'. rewrite Hskipped; [|done|].
    + by apply Hother, Hlen3.
    + rewrite Hdata; [done|]. by apply list_elem_of_fmap_2.
  - intros q Hq. rewrite Hframe by (apply Hlen; by rewrite (data_path_length q Hq)).
    by apply Hdata.
  - intros q Hq Hnot. by rewrite Hframe, Hother.
Qed.

(** X4: outside dry-run mode, when [sync_to_wwwroot] returns: the serving
    directory exists and holds a copy of every data file that exists; the
    copy of a data file that does not exist is left as it was, stale or
    absent; the data files are untouched. *)
Theorem sync_to_wwwroot_copies (self : WordListUpdater) (st st' : state) :
  dry_run self = false →
  sync_to_wwwroot self st = (Ok tt, st') →
  fs st' !! WWWROOT_DATA_DIR = Some Dir ∧
  (∀ filename content, filename ∈ DATA_FILES →
     fs st !! (DATA_DIR </> filename) = Some (File content) →
     fs st' !! (WWWROOT_DATA_DIR </> filename) = Some (File content)) ∧
  (∀ filename, filename ∈ DATA_FILES →
     fs st !! (DATA_DIR </> filename) = None →
     fs st' !! (WWWROOT_DATA_DIR </> filename) = fs st !! (WWWROOT_DATA_DIR </> filename)) ∧
  (∀ q, is_data_path q → fs st' !! q = fs st !! q) ∧
  (∀ q, q ∉ (joinpath WWWROOT_DATA_DIR <$> DATA_FILES) → q ∉ made [] WWWROOT_DATA_DIR →
     fs st' !! q = fs st !! q).
Proof.
  apply sync_to_wwwroot_effect.
Qed.

Lemma sync_to_wwwroot_copies_witness :
  ∃ st', sync_to_wwwroot quiet (fresh apple_beach) = (Ok tt, st') ∧
         fs st' !! (WWWROOT_DATA_DIR </> "past-answers.txt")
           = Some (File ("apple" +:+ Text.nl +:+ "beach" +:+ Text.nl)).
Proof.
  destruct (sync_to_wwwroot quiet (fresh apple_beach)) as [[[]|e] st'] eqn:Hrun;
    [|exfalso; revert Hrun; vm_compute; discriminate].
  exists st'. split; [reflexivity|].
  destruct (sync_to_wwwroot_copies quiet (fresh apple_beach) st' eq_refl Hrun)
    as (_ & Hcopied & _).
  apply (Hcopied "past-answers.txt").
  - apply past_answers_in_data_files.
  - vm_compute. reflexivity.
Defined.

(** *** A whole run that returns *)

Section RunReturns.

Variable net : nat → string → outcome.
Variable strftime : nat → string.
Variable self : WordListUpdater.

(** The steps of a body that returned. *)
Lemma run_body_ok_inv start st status st' :
  run_body net strftime self start st = (Ok status, st') →
  ∃ st1 sets st2 st3 st4 st5,
    backup_files strftime self st = (Ok tt, st1) ∧
    fetch_data net self st1 = (Ok sets, st2) ∧
    Fs.mkdir DATA_DIR st2 = (Ok tt, st3) ∧
    write_updated_files self sets st3 = (Ok tt, st4) ∧
    sync_to_wwwroot self st4 = (Ok tt, st5) ∧
    fs st' = fs st5.
Proof.
  unfold run_body. rewrite bind_unfold.
  destruct (backup_files strftime self st) as [[[]|e] st1] eqn:H1; [|done].
  rewrite bind_unfold.
  destruct (fetch_data net self st1) as [[sets|e] st2] eqn:H2; [|done].
  rewrite bind_unfold.
  destruct (Fs.mkdir DATA_DIR st2) as [[[]|e] st3] eqn:H3; [|done].
  rewrite bind_unfold.
  destruct (write_updated_files self sets st3) as [[[]|e] st4] eqn:H4; [|done].
  rewrite bind_unfold.
  destruct (sync_to_wwwroot self st4) as [[[]|e] st5] eqn:H5; [|done].
  destruct (run_body_tail start st5) as (st6 & -> & Hfs). intros [= _ <-].
  by exists st1, sets, st2, st3, st4, st5.
Qed.

End RunReturns.

(** X5: after a run outside dry-run mode that exits with 0, the serving
    directory mirrors the data directory: each data file that exists has a
    copy with the same text in [wwwroot/data]. *)
Theorem served_files_mirror_data
    (net : nat → string → outcome) (strftime : nat → string)
    (verbose_flag : bool) (st st' : state) :
  main net strftime verbose_flag false st = (Exit 0, st') →
  ∀ filename content, filename ∈ DATA_FILES →
    fs st' !! (DATA_DIR </> filename) = Some (File content) →
    fs st' !! (WWWROOT_DATA_DIR </> filename) = Some (File content).
Proof.
  intros Hmain%main_exit_0 filename content Hin.
  apply run_body_ok_inv in Hmain
    as (st1 & sets & st2 & st3 & st4 & st5 & _ & _ & _ & _ & Hsync & Hfs).
  destruct (sync_to_wwwroot_effect {| verbose := verbose_flag; dry_run := false |}
              st4 st5 eq_refl Hsync) as (_ & Hcopied & _ & Hdata & _).
  rewrite !Hfs. rewrite Hdata by (by apply list_elem_of_fmap_2). by apply Hcopied.
Qed.

Lemma served_files_mirror_data_witness :
  ∃ st', main online stamp false false (fresh apple_beach) = (Exit 0, st') ∧
         fs st' !! (WWWROOT_DATA_DIR </> "words.txt")
           = Some (File ("quilt" +:+ Text.nl +:+ "zebra")).
Proof.
  assert ((main online stamp false false (fresh apple_beach)).1 = Exit 0) as Hexit
    by (vm_compute; reflexivity).
  assert (fs (main online stamp false false (fresh apple_beach)).2 !! (DATA_DIR </> "words.txt")
          = Some (File ("quilt" +:+ Text.nl +:+ "zebra"))) as Hwords
    by (vm_compute; reflexivity).
  destruct (main online stamp false false (fresh apple_beach)) as [ending st'] eqn:Hmain.
  cbn [fst snd] in *. subst ending. exists st'. split; [reflexivity|].
  apply (served_files_mirror_data online stamp false (fresh apple_beach) st' Hmain).
  - apply words_in_data_files.
  - exact Hwords.
Defined.

Lemma write_updated_files_frame self sets st q :
  dry_run self = false → ¬ is_data_path q →
  fs (write_updated_files self sets st).2 !! q = fs st !! q.
Proof.
  intros Hdry Hq. destruct sets as [[past all] common]. unfold write_updated_files.
  assert (∀ filename, filename ∈ DATA_FILES → q ≠ DATA_DIR </> filename) as Hne.
  { intros filename Hin ->. apply Hq. by apply list_elem_of_fmap_2. }
  rewrite bind_unfold.
  pose proof (write_word_file_files self (DATA_DIR </> "past-answers.txt") past
                "past Wordle answers" st Hdry ltac:(done)) as H1.
  destruct (write_word_file self (DATA_DIR </> "past-answers.txt") _ _ st) as [[[]|e] st1];
    destruct H1 as (H1 & _); cbn [snd];
    [|apply H1, Hne, past_answers_in_data_files].
  rewrite bind_unfold.
  pose proof (write_word_file_files self (DATA_DIR </> "common-words.txt") common
                "common words" st1 Hdry ltac:(done)) as H2.
  destruct (write_word_file self (DATA_DIR </> "common-words.txt") _ _ st1) as [[[]|e] st2];
    destruct H2 as (H2 & _); cbn [snd];
    [|rewrite H2 by apply Hne, common_words_in_data_files;
      apply H1, Hne, past_answers_in_data_files].
  pose proof (write_word_file_files self (DATA_DIR </> "words.txt") all
                "total words" st2 Hdry ltac:(done)) as H3.
  destruct (write_word_file self (DATA_DIR </> "words.txt") _ _ st2) as [r3 st3].
  destruct H3 as (H3 & _). cbn [snd].
  rewrite H3 by apply Hne, words_in_data_files.
  rewrite H2 by apply Hne, common_words_in_data_files.
  apply H1, Hne, past_answers_in_data_files.
Qed.

(** X6: after a run outside dry-run mode that exits with 0, the backup
    directory holds, for every data file that existed when the run
    started, a copy named after the file and the starting time, with the
    text the file had before the run touched anything. *)
Theorem backups_hold_old_files
    (net : nat → string → outcome) (strftime : nat → string)
    (verbose_flag : bool) (st st' : state) :
  main net strftime verbose_flag false st = (Exit 0, st') →
  ∀ filename content, filename ∈ DATA_FILES →
    fs st !! (DATA_DIR </> filename) = Some (File content) →
    fs st' !! (BACKUP_DIR </> backup_name filename (strftime (clock st)))
      = Some (File content).
Proof.
  intros Hmain%main_exit_0 filename content Hin Hsource.
  apply run_body_ok_inv in Hmain
    as (st1 & sets & st2 & st3 & st4 & st5 & Hbackup & Hfetch & Hmkdir & Hwrite & Hsync & Hfs).
  set (target := BACKUP_DIR </> backup_name filename (strftime (clock st))).
  assert (length target = 3) as Hlen by done.
  destruct (backup_files_effect strftime {| verbose := verbose_flag; dry_run := false |}
              _ st1 eq_refl Hbackup) as (_ & Hcopied & _).
  specialize (Hcopied filename content Hin Hsource). cbn [clock emit set_changes_made] in Hcopied.
  fold target in Hcopied.
  destruct (fetch_data_run net {| verbose := verbose_flag; dry_run := false |} st1)
    as (n2 & st2' & Hfetch' & (Hfs2 & _) & _).
  rewrite Hfetch in Hfetch'. injection Hfetch' as _ <-.
  apply mkdir_from_ok in Hmkdir as (_ & Hfs3 & _).
  pose proof (write_updated_files_frame {| verbose := verbose_flag; dry_run := false |}
                sets st3 target eq_refl) as Hfs4.
  rewrite Hwrite in Hfs4. cbn [snd] in Hfs4.
  destruct (sync_to_wwwroot_effect {| verbose := verbose_flag; dry_run := false |}
              st4 st5 eq_refl Hsync) as (_ & _ & _ & _ & Hfs5).
  rewrite Hfs, Hfs5, Hfs4, Hfs3, Hfs2; [done|..].
  - simpl. rewrite elem_of_cons, elem_of_nil. by intros [Heq|[]].
  - intros Hdata%data_path_length. lia.
  - intros (other & Heq & _)%list_elem_of_fmap. done.
  - simpl. rewrite !elem_of_cons, elem_of_nil. by intros [Heq|[Heq|[]]].
Qed.

Lemma backups_hold_old_files_witness :
  ∃ st', main online stamp false false (fresh beach_apple) = (Exit 0, st') ∧
         fs st' !! (BACKUP_DIR </> "past-answers_20240101_120000.txt")
           = Some (File ("beach" +:+ Text.nl +:+ "apple" +:+ Text.nl)).
Proof.
  assert ((main online stamp false false (fresh beach_apple)).1 = Exit 0) as Hexit
    by (vm_compute; reflexivity).
  assert (fs (fresh beach_apple) !! (DATA_DIR </> "past-answers.txt")
          = Some (File ("beach" +:+ Text.nl +:+ "apple" +:+ Text.nl))) as Hold
    by (vm_compute; reflexivity).
  destruct (main online stamp false false (fresh beach_apple)) as [ending st'] eqn:Hmain.
  cbn [fst snd] in *. subst ending. exists st'. split; [reflexivity|].
  exact (backups_hold_old_files online stamp false (fresh beach_apple) st' Hmain
           "past-answers.txt" _ past_answers_in_data_files Hold).
Defined.

(** ** More on the fetchers *)

Lemma attempt_result_ok o response :
  attempt_result o = Ok response →
  o = Responds response ∧ (status_code response < 400 ∨ 600 ≤ status_code response).
Proof.
  destruct o as [r|detail]; unfold attempt_result; [|done].
  destruct (400 <=? status_code r) eqn:Hlow, (status_code r <? 600) eqn:Hhigh;
    cbn [andb]; intros Heq; simplify_eq; (split; [done|]).
  - apply Nat.ltb_ge in Hhigh. lia.
  - apply Nat.leb_gt in Hlow. lia.
  - apply Nat.leb_gt in Hlow. lia.
Qed.

(** X7: [fetch_url] never returns [None]: it returns a response whose status
    is no client or server error, or raises a [RequestException]. It sends
    one to three requests, sleeps three seconds at most, and leaves the
    files alone. *)
Theorem fetch_url_outcome
    (net : nat → string → outcome) (self : WordListUpdater) (url : string) (st : state) :
  let '(r, st') := fetch_url net self url st in
  match r with
  | Ok None => False
  | Ok (Some response) => status_code response < 400 ∨ 600 ≤ status_code response
  | Raise e => is_RequestException e = true
  end ∧
  requests_sent st < requests_sent st' ≤ requests_sent st + 3 ∧
  clock st ≤ clock st' ≤ clock st + 3 ∧
  fs st' = fs st ∧ changes_made st' = changes_made st.
Proof.
  unfold fetch_url. cbn [seq].
  rewrite fetch_url_loop_step. cbv zeta.
  destruct (attempt_result (net (requests_sent st) url)) as [r0|e0] eqn:H0.
  { apply attempt_result_ok in H0 as [_ Hstatus]. cbv beta iota zeta. split; [done|].
    unfold seen_attempt; destruct (verbose self); simpl; (split; [lia|]); (split; [lia|]); done. }
  cbn [Nat.ltb Nat.leb]. rewrite fetch_url_loop_step. cbv zeta.
  repeat (rewrite requests_sent_slept || rewrite requests_sent_seen).
  destruct (attempt_result (net (S (requests_sent st)) url)) as [r1|e1] eqn:H1.
  { apply attempt_result_ok in H1 as [_ Hstatus]. cbv beta iota zeta. split; [done|].
    unfold seen_attempt, slept, warned; destruct (verbose self); simpl; (split; [lia|]); (split; [lia|]); done. }
  cbn [Nat.ltb Nat.leb]. rewrite fetch_url_loop_step. cbv zeta.
  repeat (rewrite requests_sent_slept || rewrite requests_sent_seen).
  destruct (attempt_result (net (S (S (requests_sent st))) url)) as [r2|e2] eqn:H2.
  { apply attempt_result_ok in H2 as [_ Hstatus]. cbv beta iota zeta. split; [done|].
    unfold seen_attempt, slept, warned; destruct (verbose self); simpl; (split; [lia|]); (split; [lia|]); done. }
  cbn [Nat.ltb Nat.leb]. apply attempt_result_caught in H2. cbv beta iota zeta. split; [done|].
  unfold seen_attempt, slept, warned; destruct (verbose self); simpl; (split; [lia|]); (split; [lia|]); done.
Qed.

(** *** Extracting the solutions *)

Lemma update_lowered_strings acc strs rest :
  Json.update_lowered acc ((JStr <$> strs) ++ rest) =
  Json.update_lowered
    (acc ∪ list_to_set (Text.lower <$> filter (λ s, Text.len s = 5) strs)) rest.
Proof.
  revert acc. induction strs as [|s strs IH]; intros acc.
  { simpl. by rewrite (right_id_L ∅ (∪)). }
  cbn [fmap list_fmap app Json.update_lowered Json.len Json.lower].
  change (list_fmap string json JStr strs) with (JStr <$> strs).
  destruct (Text.len s =? 5) eqn:Hlen.
  - apply Nat.eqb_eq in Hlen. rewrite IH, filter_cons_True by done.
    cbn [fmap list_fmap list_to_set foldr].
    f_equal. set_solver.
  - apply Nat.eqb_neq in Hlen. by rewrite IH, filter_cons_False by done.
Qed.

Lemma lookup_key_has_key key items v :
  Json.lookup_key key items = Some v → Json.has_key key items = true.
Proof.
  unfold Json.has_key. induction items as [|[k w] items IH]; simpl; [done|].
  destruct (String.eqb k key); [done|]. intros Hv. by rewrite IH.
Qed.

(** X8: when the answers endpoint answers at once with an object whose
    [solutions] are strings, [answers_from_json] returns exactly the
    strings of five characters, lowercased. An entry that has no length (a
    number, a boolean, null) ends the extraction: the words before it are
    kept, the entries after it are never looked at. *)
Theorem answers_from_json_extracts
    (net : nat → string → outcome) (self : WordListUpdater) (st : state)
    (response : response) (items : list (string * json))
    (strs : list string) (rest : list json) :
  net (requests_sent st) WORDLE_ANSWERS_URL = Responds response →
  status_code response < 400 →
  json_body response = Some (JObj items) →
  Json.lookup_key "solutions" items = Some (JArr ((JStr <$> strs) ++ rest)) →
  (rest = [] ∨ ∃ bad rest' e, rest = bad :: rest' ∧ Json.len bad = Raise e) →
  ∃ st', answers_from_json net self st =
           (Ok (list_to_set (Text.lower <$> filter (λ s, Text.len s = 5) strs)), st') ∧
         fs st' = fs st.
Proof.
  intros Hnet Hstatus Hbody Hsolutions Hrest.
  destruct (answers_from_json_run net self st) as (st' & -> & Hfs & _).
  exists st'. split; [|done]. do 2 f_equal.
  unfold remote_answers, fetch_result. rewrite Hnet. unfold attempt_result.
  replace (400 <=? status_code response) with false by (symmetry; apply Nat.leb_gt; lia).
  cbn [andb]. rewrite Hbody. unfold solutions_of. cbn [Json.contains Json.getitem].
  rewrite (lookup_key_has_key _ _ _ Hsolutions), Hsolutions. cbn [Json.iter].
  rewrite update_lowered_strings, (left_id_L ∅ (∪)).
  destruct Hrest as [->|(bad & rest' & e & -> & Hbad)]; [done|].
  cbn [Json.update_lowered]. by rewrite Hbad.
Qed.

Lemma answers_from_json_extracts_witness :
  ∃ st', answers_from_json online quiet (fresh ∅) =
           (Ok (list_to_set
                  (Text.lower <$> filter (λ s, Text.len s = 5) ["Apple"; "toolong"; "beach"])),
            st') ∧
         fs st' = fs (fresh ∅).
Proof.
  apply (answers_from_json_extracts online quiet (fresh ∅)
           {| status_code := 200; text := ""; json_body := Some answers_document |}
           [("solutions", JArr [JStr "Apple"; JStr "toolong"; JStr "beach"])]
           ["Apple"; "toolong"; "beach"] []).
  - reflexivity.
  - simpl. lia.
  - reflexivity.
  - reflexivity.
  - by left.
Defined.

(** *** The fallback order of [fetch_past_wordle_answers] *)

(** X9: remote answers win: when the endpoint yields words, they are returned
    and [past-answers.txt] is not read, even where reading it would raise.
    When the endpoint yields none and a directory stands at the path of
    the file, the [IsADirectoryError] of the read is not caught. *)
Theorem local_answers_are_a_fallback
    (net : nat → string → outcome) (self : WordListUpdater) (st : state) :
  (remote_answers net (requests_sent st) ≠ ∅ →
   ∃ st', fetch_past_wordle_answers net self st
            = (Ok (remote_answers net (requests_sent st)), st') ∧
          fs st' = fs st) ∧
  (remote_answers net (requests_sent st) = ∅ →
   fs st !! (DATA_DIR </> "past-answers.txt") = Some Dir →
   ∃ st', fetch_past_wordle_answers net self st
            = (Raise (IsADirectoryError (DATA_DIR </> "past-answers.txt")), st') ∧
          fs st' = fs st).
Proof.
  destruct (fetch_past_wordle_answers_run net self st) as (st' & -> & Hfs & _).
  unfold past_answers_of. split.
  - intros Hremote. rewrite bool_decide_eq_false_2 by done. by exists st'.
  - intros -> ->. rewrite bool_decide_eq_true_2 by done. by exists st'.
Qed.

Lemma local_answers_are_a_fallback_witness :
  ∃ st', fetch_past_wordle_answers online quiet (fresh apple_beach)
           = (Ok (remote_answers online 0), st') ∧
         fs st' = apple_beach.
Proof.
  apply (proj1 (local_answers_are_a_fallback online quiet (fresh apple_beach))).
  apply (bool_decide_unpack _). by vm_compute.
Defined.

(** *** The bounds of the common words *)

(** X10: the common words are the past answers and the existing common words,
    as far as they are comprehensive words: a past answer that is a
    comprehensive word is always common, an existing common word stays
    common while it is a comprehensive word, and nothing else is common. *)
Theorem common_words_bounds
    (all_words past_answers common_words : gset string) (st st' : state) :
  determine_common_words all_words past_answers st = (Ok common_words, st') →
  past_answers ∩ all_words ⊆ common_words ∧
  existing_words (fs st) "common-words.txt" ∩ all_words ⊆ common_words ∧
  common_words ⊆ past_answers ∪ existing_words (fs st) "common-words.txt" ∧
  common_words ⊆ all_words ∧
  fs st' = fs st.
Proof.
  destruct (determine_common_words_run all_words past_answers st)
    as (st1 & -> & (Hfs & _) & _).
  unfold common_words_of, existing_words, local_words.
  destruct (fs st !! (DATA_DIR </> "common-words.txt")) as [[content|]|]; [|done|];
    intros [= <- <-]; cbn [default]; repeat split; try done; set_solver.
Qed.

Lemma common_words_bounds_witness :
  ∃ common_words st',
    determine_common_words {["apple"; "zebra"]} {["apple"; "beach"]} (fresh apple_beach)
      = (Ok common_words, st') ∧
    ({["apple"; "beach"]} : gset string) ∩ {["apple"; "zebra"]} ⊆ common_words.
Proof.
  destruct (determine_common_words {["apple"; "zebra"]} {["apple"; "beach"]}
              (fresh apple_beach)) as [[common_words|e] st'] eqn:Hrun;
    [|exfalso; revert Hrun; vm_compute; discriminate].
  exists common_words, st'. split; [reflexivity|].
  exact (proj1 (common_words_bounds _ _ _ _ _ Hrun)).
Defined.

(** ** Writing, and reading back *)

(** X11: outside dry-run mode, when the computed text differs from the stripped
    text of the file and the directory is there: the file is written with
    exactly the computed text, nothing else changes, and the updater
    remembers that something changed. *)
Theorem write_word_file_writes
    (self : WordListUpdater) (filepath : path) (words : gset string)
    (description : string) (st : state) :
  dry_run self = false →
  filepath ≠ [] →
  fs st !! filepath ≠ Some Dir →
  Fs.node_at (fs st) (Fs.parent filepath) = Some Dir →
  file_content words ≠ Text.strip (existing_text (fs st !! filepath)) →
  ∃ st', write_word_file self filepath words description st = (Ok tt, st') ∧
         fs st' = <[filepath := File (file_content words)]> (fs st) ∧
         changes_made st' = true ∧
         fs_events (since st st') = [WriteFile filepath (file_content words)].
Proof.
  intros Hdry Hp Hdir Hparent Hdiff. rewrite write_word_file_written by done.
  eexists. split; [done|]. repeat split.
  unfold since. simpl. by rewrite <- app_assoc, drop_app_length.
Qed.

Lemma write_word_file_writes_witness :
  ∃ st', write_word_file quiet (DATA_DIR </> "past-answers.txt") {["apple"; "beach"]}
           "past Wordle answers" (fresh beach_apple) = (Ok tt, st') ∧
         fs st' !! (DATA_DIR </> "past-answers.txt")
           = Some (File (file_content {["apple"; "beach"]})).
Proof.
  destruct (write_word_file_writes quiet (DATA_DIR </> "past-answers.txt")
              {["apple"; "beach"]} "past Wordle answers" (fresh beach_apple))
    as (st' & Hrun & Hfs & _).
  - reflexivity.
  - discriminate.
  - vm_compute. discriminate.
  - vm_compute. reflexivity.
  - vm_compute. discriminate.
  - exists st'. split; [exact Hrun|]. rewrite Hfs. apply lookup_insert_eq.
Defined.



Lemma after_write_words (n : option node) (ws : gset string) :
  clean_set ws → ws ≠ ∅ →
  ∃ content, after_write n ws = Some (File content) ∧
             list_to_set (Text.lines content) = ws.
Proof.
  intros Hclean Hne. unfold after_write. case_bool_decide as Hsame.
  - destruct n as [[content|]|]; simpl in Hsame.
    + exists content. split; [done|]. unfold Text.lines. rewrite <- Hsame.
      unfold file_content. rewrite split_join_clean.
      * apply list_to_set_sorted.
      * by apply sorted_clean.
      * by rewrite sorted_nil.
    + by apply file_content_not_empty in Hsame.
    + by apply file_content_not_empty in Hsame.
  - exists (file_content ws). split; [done|]. by apply words_of_file_content.
Qed.

(** X13: what [write_word_file] leaves in [words.txt] is read back as the same
    set by [fetch_comprehensive_wordlist], for a set that is not empty and
    whose words are not empty and hold no blank: whether the file was
    written or found up to date, the next reading (here with the
    dictionary unreachable, so that nothing is added) yields the set. *)
Theorem written_words_are_read_back
    (net : nat → string → outcome) (self : WordListUpdater)
    (words : gset string) (description : string) (st st1 : state) :
  dry_run self = false →
  clean_set words → words ≠ ∅ →
  write_word_file self (DATA_DIR </> "words.txt") words description st = (Ok tt, st1) →
  attempts_fail net (requests_sent st1) FALLBACK_SCRABBLE_URL →
  ∃ st2, fetch_comprehensive_wordlist net self st1 = (Ok words, st2).
Proof.
  intros Hdry Hclean Hne Hwrite [e He]%attempts_fail_result.
  pose proof (write_word_file_files self (DATA_DIR </> "words.txt") words description st
                Hdry ltac:(done)) as Hfiles.
  rewrite Hwrite in Hfiles. destruct Hfiles as (_ & _ & Hnode). specialize (Hnode eq_refl).
  destruct (after_write_words (fs st !! (DATA_DIR </> "words.txt")) words Hclean Hne)
    as (content & Hafter & Hwords).
  rewrite Hafter in Hnode.
  destruct (fetch_comprehensive_wordlist_run net self st1) as (st2 & -> & _).
  exists st2. unfold all_words_of, scrabble_words, local_words.
  rewrite Hnode, He. cbn [default scrabble_words_of].
  by rewrite Hwords, (right_id_L ∅ (∪)).
Qed.

Lemma apple_beach_clean : clean_set {["apple"; "beach"]}.
Proof.
  intros w [Hw%elem_of_singleton|Hw%elem_of_singleton]%elem_of_union; by subst w.
Qed.

Lemma apple_beach_not_empty : ({["apple"; "beach"]} : gset string) ≠ ∅.
Proof. set_solver. Qed.

Lemma written_words_are_read_back_witness :
  ∃ st1 st2,
    write_word_file quiet (DATA_DIR </> "words.txt") {["apple"; "beach"]} "total words"
      (fresh apple_beach) = (Ok tt, st1) ∧
    fetch_comprehensive_wordlist no_network quiet st1 = (Ok {["apple"; "beach"]}, st2).
Proof.
  destruct (write_word_file quiet (DATA_DIR </> "words.txt") {["apple"; "beach"]}
              "total words" (fresh apple_beach)) as [[[]|e] st1] eqn:Hwrite;
    [|exfalso; revert Hwrite; vm_compute; discriminate].
  destruct (written_words_are_read_back no_network quiet {["apple"; "beach"]}
              "total words" (fresh apple_beach) st1 eq_refl apple_beach_clean
              apple_beach_not_empty Hwrite (no_network_fails _ _)) as [st2 Hread].
  exists st1, st2. split; [reflexivity|exact Hread].
Defined.
(** ** The network budget of a run *)

Global Instance same_budget_preorder : PreOrder same_budget.
Proof.
  split; [done|]. intros st1 st2 st3 [H1 H2] [H3 H4]. split; congruence.
Qed.








Section Budget.

Variable net : nat → string → outcome.
Variable strftime : nat → string.
Variable self : WordListUpdater.












Local Abbreviation free := (respects same_budget).











End Budget.


(** The bound is reached when nothing answers: six requests, six seconds. *)
Example budget_is_reached :
  let st' := (main no_network stamp false false (fresh ∅)).2 in
  requests_sent st' = 6 ∧ clock st' = 6.
Proof. vm_compute. by split. Qed.
(** ** What [--verbose] changes *)

Section Verbose.

Variable base : list event.

Local Notation "c1 ≈ c2" := (louder_runs base c1 c2) (at level 70).

Lemma louder_ret {A} (a : A) : (mret a : M A) ≈ mret a.
Proof. by intros st1 st2 H. Qed.

Lemma louder_raise {A} e : (raise e : M A) ≈ raise e.
Proof. by intros st1 st2 H. Qed.

Lemma louder_lift {A} (r : result A) : lift r ≈ lift r.
Proof. by intros st1 st2 H. Qed.

Lemma louder_get {A} (f : state → A) :
  (∀ st1 st2, louder base st1 st2 → f st1 = f st2) → get f ≈ get f.
Proof. intros Hf st1 st2 H. split; [|done]. simpl. f_equal. by apply Hf. Qed.

Lemma louder_modify (f1 f2 : state → state) :
  (∀ st1 st2, louder base st1 st2 → louder base (f1 st1) (f2 st2)) →
  modify f1 ≈ modify f2.
Proof. intros Hf st1 st2 H. split; [done|]. by apply Hf. Qed.

Lemma louder_bind {A B} (c1 c2 : M A) (k1 k2 : A → M B) :
  c1 ≈ c2 → (∀ a, k1 a ≈ k2 a) → (c1 ≫= k1) ≈ (c2 ≫= k2).
Proof.
  intros Hc Hk st1 st2 H. rewrite !bind_unfold.
  destruct (Hc st1 st2 H) as [Hr Hst].
  destruct (c1 st1) as [[a1|e1] st1'], (c2 st2) as [[a2|e2] st2'];
    simpl in Hr; simplify_eq; [by apply Hk|done].
Qed.

Lemma louder_try_except {A} (c1 c2 : M A) catches (h1 h2 : exn → M A) :
  c1 ≈ c2 → (∀ e, h1 e ≈ h2 e) → try_except c1 catches h1 ≈ try_except c2 catches h2.
Proof.
  intros Hc Hh st1 st2 H. unfold try_except.
  destruct (Hc st1 st2 H) as [Hr Hst].
  destruct (c1 st1) as [[a1|e1] st1'], (c2 st2) as [[a2|e2] st2'];
    simpl in Hr; simplify_eq; [done|].
  destruct (catches e2); [by apply Hh|done].
Qed.

Lemma louder_for_each {A} (xs : list A) (body1 body2 : A → M unit) :
  (∀ x, body1 x ≈ body2 x) → for_each xs body1 ≈ for_each xs body2.
Proof.
  intros Hbody. induction xs as [|x xs IH]; simpl; [apply louder_ret|].
  by apply louder_bind.
Qed.

Lemma debug_free_snoc evs e :
  debug_free (evs ++ [e]) = debug_free evs ++ (if is_debug e then [] else [e]).
Proof. unfold debug_free. rewrite List.filter_app. simpl. by destruct (is_debug e). Qed.

(** An event that is no debug line is seen by both. *)
Lemma louder_emit e : is_debug e = false → modify (emit e) ≈ modify (emit e).
Proof.
  intros He. apply louder_modify. intros st1 st2 (? & ? & ? & ? & evs & H1 & H2).
  repeat (split; [done|]). exists (evs ++ [e]). simpl.
  rewrite H1, H2, debug_free_snoc, He, !(assoc_L (++)). done.
Qed.

(** A debug line is seen by the first only. *)
Lemma louder_debug message args : log message args DEBUG ≈ mret tt.
Proof.
  intros st1 st2 (? & ? & ? & ? & evs & H1 & H2). split; [done|].
  repeat (split; [done|]). exists (evs ++ [Log DEBUG message args]). simpl.
  rewrite H1, H2, debug_free_snoc, !(assoc_L (++)). simpl. by rewrite (right_id_L [] (++)).
Qed.

Lemma louder_set_fs f : modify (set_fs f) ≈ modify (set_fs f).
Proof.
  apply louder_modify. intros st1 st2 (Hfs & ? & ? & ? & ?).
  split; [simpl; by rewrite Hfs|done].
Qed.

Lemma louder_set_clock f : modify (set_clock f) ≈ modify (set_clock f).
Proof.
  apply louder_modify. intros st1 st2 (? & Hclock & ? & ? & ?).
  split; [done|]. split; [simpl; by rewrite Hclock|done].
Qed.

Lemma louder_set_requests_sent f :
  modify (set_requests_sent f) ≈ modify (set_requests_sent f).
Proof.
  apply louder_modify. intros st1 st2 (? & ? & Hsent & ? & ?).
  split; [done|]. split; [done|]. split; [simpl; by rewrite Hsent|done].
Qed.

Lemma louder_set_changes_made b :
  modify (set_changes_made b) ≈ modify (set_changes_made b).
Proof. apply louder_modify. by intros st1 st2 (? & ? & ? & ? & ?). Qed.

Lemma louder_get_fs {A} (f : gmap path node → A) :
  get (λ st, f (fs st)) ≈ get (λ st, f (fs st)).
Proof. apply louder_get. by intros st1 st2 (-> & _). Qed.

Lemma louder_get_clock {A} (f : nat → A) :
  get (λ st, f (clock st)) ≈ get (λ st, f (clock st)).
Proof. apply louder_get. by intros st1 st2 (_ & -> & _). Qed.

Lemma louder_log message args lvl :
  lvl ≠ DEBUG → log message args lvl ≈ log message args lvl.
Proof. intros Hlvl. apply louder_emit. by destruct lvl. Qed.

Lemma louder_log_ret {A} message args lvl (a : A) :
  lvl ≠ DEBUG → (log message args lvl;; mret a : M A) ≈ (log message args lvl;; mret a).
Proof.
  intros Hlvl. apply louder_bind; [by apply louder_log|intros _; apply louder_ret].
Qed.

Lemma louder_exists p : Fs.exists_ p ≈ Fs.exists_ p.
Proof. unfold Fs.exists_. apply louder_get. by intros st1 st2 (-> & _). Qed.

Lemma louder_read_text p : Fs.read_text p ≈ Fs.read_text p.
Proof.
  unfold Fs.read_text.
  apply louder_bind; [apply (louder_get_fs (λ m, Fs.node_at m p))|].
  intros [[]|]; (apply louder_ret || apply louder_raise).
Qed.

Lemma louder_write_text p content : Fs.write_text p content ≈ Fs.write_text p content.
Proof.
  unfold Fs.write_text.
  apply louder_bind; [apply (louder_get_fs (λ m, Fs.node_at m p))|]. intros n.
  apply louder_bind; [apply (louder_get_fs (λ m, Fs.node_at m (Fs.parent p)))|]. intros d.
  destruct n as [[]|], d as [[]|]; try apply louder_raise.
  all: apply louder_bind; [apply louder_set_fs|intros _; by apply louder_emit].
Qed.

Lemma louder_mkdir_from above below : Fs.mkdir_from above below ≈ Fs.mkdir_from above below.
Proof.
  revert above. induction below as [|c below IH]; intros above; simpl; [apply louder_ret|].
  apply louder_bind; [apply (louder_get_fs (λ m, Fs.node_at m (above ++ [c])))|].
  intros [[]|]; [apply louder_raise|apply IH|].
  apply louder_bind; [apply louder_set_fs|]. intros _.
  apply louder_bind; [by apply louder_emit|intros _; apply IH].
Qed.

Lemma louder_sleep secs : sleep secs ≈ sleep secs.
Proof.
  unfold sleep. apply louder_bind; [apply louder_set_clock|intros _; by apply louder_emit].
Qed.

Variable net : nat → string → outcome.
Variable strftime : nat → string.
Variable loud_flag rehearsing : bool.

Local Abbreviation loud := {| verbose := loud_flag; dry_run := rehearsing |}.
Local Abbreviation calm := {| verbose := false; dry_run := rehearsing |}.

Lemma louder_verbose_log message args :
  verbose_log loud message args ≈ verbose_log calm message args.
Proof.
  unfold verbose_log. cbn [verbose].
  destruct loud_flag; [apply louder_debug|apply louder_ret].
Qed.

Lemma louder_requests_get url : requests_get net url ≈ requests_get net url.
Proof.
  unfold requests_get. apply louder_bind.
  { apply louder_get. by intros st1 st2 (_ & _ & -> & _). }
  intros n. apply louder_bind; [apply louder_set_requests_sent|]. intros _.
  apply louder_bind; [by apply louder_emit|]. intros _.
  destruct (net n url); [apply louder_ret|apply louder_raise].
Qed.

Lemma louder_fetch_url url : fetch_url net loud url ≈ fetch_url net calm url.
Proof.
  unfold fetch_url. generalize (seq 0 3). intros attempts.
  induction attempts as [|attempt attempts IH]; simpl; [apply louder_ret|].
  apply louder_try_except.
  - apply louder_bind; [apply louder_verbose_log|]. intros _.
    apply louder_bind; [apply louder_requests_get|]. intros response.
    apply louder_bind; [|intros _; apply louder_ret].
    unfold raise_for_status. destruct (_ && _); [apply louder_raise|apply louder_ret].
  - intros e. apply louder_bind; [by apply louder_log|]. intros _.
    destruct (attempt <? 2); [|apply louder_raise].
    apply louder_bind; [apply louder_sleep|done].
Qed.

Lemma louder_answers_from_json : answers_from_json net loud ≈ answers_from_json net calm.
Proof.
  unfold answers_from_json. apply louder_try_except.
  2: { intros e. by apply louder_log_ret. }
  apply louder_bind; [apply louder_fetch_url|]. intros response.
  apply louder_bind.
  { unfold response_json. destruct response as [r|]; [|apply louder_raise].
    destruct (json_body r); [apply louder_ret|apply louder_raise]. }
  intros data. apply louder_bind; [apply louder_lift|]. intros [|]; [|apply louder_ret].
  apply louder_bind; [apply louder_lift|]. intros solutions.
  apply louder_bind; [apply louder_lift|]. intros ws.
  destruct (Json.update_lowered ∅ ws) as [past [e|]]; by apply louder_log_ret.
Qed.

Lemma louder_fetch_past_wordle_answers :
  fetch_past_wordle_answers net loud ≈ fetch_past_wordle_answers net calm.
Proof.
  unfold fetch_past_wordle_answers.
  apply louder_bind; [by apply louder_log|]. intros _.
  apply louder_bind; [apply louder_answers_from_json|]. intros past.
  apply louder_bind.
  { destruct (bool_decide _); [by apply louder_log|apply louder_ret]. }
  intros _. destruct (bool_decide _); [|apply louder_ret].
  apply louder_bind; [by apply louder_log|]. intros _.
  apply louder_bind; [apply louder_exists|]. intros [|]; [|apply louder_ret].
  apply louder_bind; [apply louder_read_text|]. intros content.
  by apply louder_log_ret.
Qed.

Lemma louder_fetch_comprehensive_wordlist :
  fetch_comprehensive_wordlist net loud ≈ fetch_comprehensive_wordlist net calm.
Proof.
  unfold fetch_comprehensive_wordlist.
  apply louder_bind; [by apply louder_log|]. intros _.
  apply louder_bind; [apply louder_exists|]. intros there.
  apply louder_bind.
  { destruct there; [|apply louder_ret].
    apply louder_bind; [apply louder_read_text|]. intros content.
    by apply louder_log_ret. }
  intros all_words. apply louder_try_except.
  2: { intros e. by apply louder_log_ret. }
  apply louder_bind; [apply louder_fetch_url|]. intros response.
  apply louder_bind.
  { unfold response_text. destruct response; [apply louder_ret|apply louder_raise]. }
  intros body. apply louder_bind; [|intros _; apply louder_ret].
  destruct (_ <? _); [by apply louder_log|apply louder_ret].
Qed.

Lemma louder_determine_common_words all_words past_answers :
  determine_common_words all_words past_answers
  ≈ determine_common_words all_words past_answers.
Proof.
  unfold determine_common_words.
  apply louder_bind; [by apply louder_log|]. intros _.
  apply louder_bind; [apply louder_exists|]. intros there.
  apply louder_bind.
  { destruct there; [|apply louder_ret].
    apply louder_bind; [apply louder_read_text|intros content; apply louder_ret]. }
  intros common. by apply louder_log_ret.
Qed.

Lemma louder_fetch_data : fetch_data net loud ≈ fetch_data net calm.
Proof.
  unfold fetch_data.
  apply louder_bind; [apply louder_fetch_past_wordle_answers|]. intros past.
  apply louder_bind; [apply louder_fetch_comprehensive_wordlist|]. intros all.
  apply louder_bind; [apply louder_determine_common_words|intros c; apply louder_ret].
Qed.

Lemma louder_backup_files : backup_files strftime loud ≈ backup_files strftime calm.
Proof.
  unfold backup_files. cbn [dry_run]. destruct rehearsing; [by apply louder_log|].
  apply louder_bind; [apply louder_mkdir_from|]. intros _.
  apply louder_bind; [apply (louder_get_clock strftime)|]. intros timestamp.
  apply louder_for_each. intros filename.
  apply louder_bind; [apply louder_exists|]. intros [|]; [|apply louder_ret].
  apply louder_bind; [apply louder_read_text|]. intros content.
  apply louder_bind; [apply louder_write_text|intros _; apply louder_verbose_log].
Qed.

Lemma louder_sync_to_wwwroot : sync_to_wwwroot loud ≈ sync_to_wwwroot calm.
Proof.
  unfold sync_to_wwwroot. cbn [dry_run]. destruct rehearsing; [by apply louder_log|].
  apply louder_bind; [apply louder_mkdir_from|]. intros _.
  apply louder_for_each. intros filename.
  apply louder_bind; [apply louder_exists|]. intros [|]; [|apply louder_ret].
  apply louder_bind; [apply louder_read_text|]. intros content.
  apply louder_bind; [apply louder_write_text|intros _; apply louder_verbose_log].
Qed.

Lemma louder_write_word_file filepath words description :
  write_word_file loud filepath words description
  ≈ write_word_file calm filepath words description.
Proof.
  unfold write_word_file. cbn [dry_run].
  apply louder_bind; [apply louder_exists|]. intros there.
  apply louder_bind.
  { destruct there; [apply louder_read_text|apply louder_ret]. }
  intros existing. destruct (bool_decide _); [|by apply louder_log].
  apply louder_bind; [apply louder_set_changes_made|]. intros _.
  destruct rehearsing.
  - apply louder_bind; [by apply louder_log|]. intros _.
    apply louder_bind; [by apply louder_log|intros _; by apply louder_log].
  - apply louder_bind; [apply louder_write_text|intros _; by apply louder_log].
Qed.

Lemma louder_run_body start :
  run_body net strftime loud start ≈ run_body net strftime calm start.
Proof.
  unfold run_body.
  apply louder_bind; [apply louder_backup_files|]. intros _.
  apply louder_bind; [apply louder_fetch_data|]. intros [[past all] common].
  apply louder_bind; [apply louder_mkdir_from|]. intros _.
  apply louder_bind.
  { unfold write_updated_files.
    apply louder_bind; [apply louder_write_word_file|]. intros _.
    apply louder_bind; [apply louder_write_word_file|]. intros _.
    apply louder_write_word_file. }
  intros _. apply louder_bind; [apply louder_sync_to_wwwroot|]. intros _.
  apply louder_bind; [apply (louder_get_clock id)|]. intros now.
  apply louder_bind; [by apply louder_log|]. intros _.
  apply louder_bind.
  { apply louder_get. by intros st1 st2 (_ & _ & _ & -> & _). }
  intros [|]; by apply louder_log_ret.
Qed.

Lemma louder_run : run net strftime loud ≈ run net strftime calm.
Proof.
  unfold run.
  apply louder_bind; [by apply louder_log|]. intros _.
  apply louder_bind; [apply (louder_get_clock id)|]. intros start.
  apply louder_try_except; [apply louder_run_body|]. intros e.
  apply louder_bind; [by apply louder_log|]. intros _.
  apply louder_bind; [by apply louder_emit|intros _; apply louder_ret].
Qed.

End Verbose.

(** X15: [--verbose] changes the output only, and only by debug lines: with
    and without it the script ends the same way, leaves the same files,
    sends the same number of requests and sleeps as long, and what the
    quiet run prints is what the verbose run prints with the [DEBUG]
    lines taken out. *)
Theorem verbose_only_adds_debug_lines
    (net : nat → string → outcome) (strftime : nat → string)
    (dry_run_flag : bool) (st : state) :
  let loud := main net strftime true dry_run_flag st in
  let calm := main net strftime false dry_run_flag st in
  loud.1 = calm.1 ∧ fs loud.2 = fs calm.2 ∧
  requests_sent loud.2 = requests_sent calm.2 ∧
  clock loud.2 = clock calm.2 ∧
  since st calm.2 = debug_free (since st loud.2).
Proof.
  cbv zeta. unfold main.
  assert (louder (trace st) (set_changes_made false st) (set_changes_made false st)) as H.
  { repeat (split; [done|]). exists []. simpl. by rewrite (right_id_L [] (++)). }
  destruct (louder_run (trace st) net strftime true dry_run_flag _ _ H) as [Hr Hst].
  destruct (run net strftime {| verbose := true; dry_run := dry_run_flag |}
              (set_changes_made false st)) as [r1 st1],
           (run net strftime {| verbose := false; dry_run := dry_run_flag |}
              (set_changes_made false st)) as [r2 st2].
  simpl in Hr, Hst. subst r2.
  destruct Hst as (Hfs & Hclock & Hsent & _ & evs & H1 & H2).
  assert (since st st1 = evs) as Hsince1 by (by apply since_app).
  assert (since st st2 = debug_free evs) as Hsince2 by (by apply since_app).
  destruct r1; cbn [fst snd]; by rewrite Hsince1, Hsince2.
Qed.
(** ** Remote answers replace the local ones *)




(** In that run the local answer is dropped from the file. *)
Example crane_is_dropped :
  fs (main online stamp false false (fresh crane_only)).2 !! (DATA_DIR </> "past-answers.txt")
  = Some (File ("apple" +:+ Text.nl +:+ "beach")).
Proof. vm_compute. reflexivity. Qed.
(** ** The word list only grows *)

(** X17: the comprehensive list never loses a word: after a run outside
    dry-run mode that exits with 0, every word that was in [words.txt] is
    still in it, when the lines of the file were words (not empty, no
    blank in them). The dictionary can only add to the list. *)
Theorem words_file_only_grows
    (net : nat → string → outcome) (strftime : nat → string)
    (verbose_flag : bool) (st st' : state) :
  main net strftime verbose_flag false st = (Exit 0, st') →
  clean_node (fs st !! (DATA_DIR </> "words.txt")) →
  existing_words (fs st) "words.txt" ⊆ existing_words (fs st') "words.txt".
Proof.
  intros Hmain%main_exit_0 Hclean.
  pose proof (run_body_files net strftime {| verbose := verbose_flag; dry_run := false |}
                (clock st)
                (emit (Log INFO "=== Starting Word List Update ===" [])
                   (set_changes_made false st)) eq_refl) as Hfiles.
  rewrite Hmain in Hfiles. cbv beta iota zeta in Hfiles.
  destruct Hfiles as [[[e He] _]|(n1 & n2 & P & A & C & Hdata & _ & _ & _ & Hok)]; [done|].
  destruct (Hok 0%Z eq_refl) as (_ & _ & Hwords & _). clear Hok.
  change (fs (emit _ (set_changes_made false st))) with (fs st) in *.
  unfold existing_words at 1.
  destruct (fs st !! (DATA_DIR </> "words.txt")) as [[content|]|] eqn:Hold;
    [|apply empty_subseteq..].
  unfold data_of in Hdata.
  destruct (past_answers_of _ _) as [past|]; [|done].
  unfold all_words_of, local_words in Hdata. cbn [default] in Hdata.
  destruct (common_words_of _ _ _) as [common|]; [|done].
  injection Hdata as _ <- _.
  set (old := list_to_set (Text.lines content) : gset string) in *.
  destruct (after_write_words (Some (File content)) (old ∪ scrabble_words net n2))
    as (content' & Hnew & Hread).
  - apply clean_set_union; [by apply clean_lines_set|apply scrabble_words_clean].
  - assert (old ≠ ∅) as Hne by apply list_to_set_not_empty, lines_not_nil.
    set_solver.
  - unfold existing_words. rewrite Hwords, Hnew, Hread. set_solver.
Qed.

Lemma words_file_only_grows_witness :
  ∃ st', main online stamp false false (fresh crane_words) = (Exit 0, st') ∧
         existing_words crane_words "words.txt" ⊆ existing_words (fs st') "words.txt".
Proof.
  assert ((main online stamp false false (fresh crane_words)).1 = Exit 0) as Hexit
    by (vm_compute; reflexivity).
  assert (clean_node (fs (fresh crane_words) !! (DATA_DIR </> "words.txt"))) as Hclean.
  { vm_compute. repeat constructor. }
  destruct (main online stamp false false (fresh crane_words)) as [ending st'] eqn:Hmain.
  cbn [fst snd] in *. subst ending. exists st'. split; [reflexivity|].
  exact (words_file_only_grows online stamp false (fresh crane_words) st' Hmain Hclean).
Defined.
